(** * Virtual router: DoH resolver, forwarding proxy and cleanup manager

    A shallow embedding of the three classes of the virtual router
    (CleanupManager, SimpleDoHResolver, LightweightProxy) together with the
    parts of the JavaScript runtime their behaviour depends on: JavaScript
    values and property access, completions (normal / thrown), promises
    awaited by an async function, event listeners on sockets and on the
    process object.  *)

From Stdlib Require Import List String Ascii ZArith Bool Lia.
Import ListNotations.
Open Scope string_scope.
Open Scope Z_scope.
Set Warnings "-register-all".

(* ================================================================== *)
(** ** JavaScript values *)
(* ================================================================== *)

(** The values that flow through the program: parsed JSON bodies of the DoH
    answer, thrown values, address lists.  Objects are property lists. *)
Inductive JsVal : Type :=
| JUndefined
| JNull
| JBool (b : bool)
| JNum (n : Z)
| JStr (s : string)
| JArr (items : list JsVal)
| JObj (fields : list (string * JsVal)).

(** Result of evaluating a piece of JavaScript: a value or a thrown value. *)
Inductive Completion (A : Type) : Type :=
| Normal (a : A)
| Throw (e : JsVal).
Arguments Normal {A} a.
Arguments Throw {A} e.

Definition bind {A B} (c : Completion A) (k : A -> Completion B) : Completion B :=
  match c with
  | Normal a => k a
  | Throw e => Throw e
  end.

Notation "x <- c ;; k" := (bind c (fun x => k))
  (at level 61, c at next level, right associativity).

Definition TypeError (message : string) : JsVal :=
  JObj [("name", JStr "TypeError"); ("message", JStr message)].

Definition ErrorObj (message : string) : JsVal :=
  JObj [("name", JStr "Error"); ("message", JStr message)].

(** ToBoolean, as used by `if (v)` and `v || d`. *)
Definition truthy (v : JsVal) : bool :=
  match v with
  | JUndefined | JNull => false
  | JBool b => b
  | JNum n => negb (n =? 0)
  | JStr s => negb (String.eqb s "")
  | JArr _ | JObj _ => true
  end.

Fixpoint lookup_field (key : string) (fields : list (string * JsVal)) : JsVal :=
  match fields with
  | [] => JUndefined
  | (k, v) :: rest => if String.eqb k key then v else lookup_field key rest
  end.

(** Property read `v.key` for the keys the program reads (`Answer`, `data`,
    `message`): none of them is a built-in property of a primitive or of an
    array, so the read gives `undefined` there; on `null` and `undefined` a
    property read throws a TypeError. *)
Definition get_prop (v : JsVal) (key : string) : Completion JsVal :=
  match v with
  | JUndefined | JNull =>
      Throw (TypeError ("Cannot read properties of nullish value: " ++ key))
  | JObj fields => Normal (lookup_field key fields)
  | _ => Normal JUndefined
  end.

Fixpoint mapM {A B} (f : A -> Completion B) (l : list A) : Completion (list B) :=
  match l with
  | [] => Normal []
  | x :: rest =>
      y <- f x ;;
      ys <- mapM f rest ;;
      Normal (y :: ys)
  end.

(** `v.map(f)`: defined on arrays only; on anything else `v.map` is not a
    function (a JSON object may hold a `map` key, never a function). *)
Definition js_map (v : JsVal) (f : JsVal -> Completion JsVal)
  : Completion (list JsVal) :=
  match v with
  | JArr items => mapM f items
  | JUndefined | JNull => Throw (TypeError "Cannot read properties of nullish value: map")
  | _ => Throw (TypeError "map is not a function")
  end.

(* ================================================================== *)
(** ** SimpleDoHResolver *)
(* ================================================================== *)

(** What `await axios.get(...)` produces: the promise rejects (network error,
    3000 ms timeout, non-2xx status) or fulfils with a response whose `data`
    is the parsed body. *)
Inductive AxiosOutcome : Type :=
| AxiosRejects (e : JsVal)
| AxiosResponse (data : JsVal).

(** What `dns.resolve4` hands to its callback: `(err, addresses)`. *)
Inductive Dns4Outcome : Type :=
| Dns4Err (err : JsVal)
| Dns4Ok (addresses : list string).

(** The network as the resolver sees it. *)
Record Network : Type := {
  axios_get : string -> AxiosOutcome;
  dns_resolve4 : string -> Dns4Outcome
}.

(** Calls the resolver makes, in order. *)
Inductive Lookup : Type :=
| DohQuery (name : string)
| DnsResolve4 (name : string).

Definition await_axios (o : AxiosOutcome) : Completion JsVal :=
  match o with
  | AxiosRejects e => Throw e
  | AxiosResponse data => Normal data
  end.

(** The body of the `try` block of `resolve`: `Some r` is `return r`, `None`
    is falling out of the block (to the trailing `return []`). *)
Definition resolve_try (o : AxiosOutcome) : Completion (option (list JsVal)) :=
  data <- await_axios o ;;
  answer <- get_prop data "Answer" ;;
  if truthy answer
  then r <- js_map answer (fun ans => get_prop ans "data") ;; Normal (Some r)
  else Normal None.

(** The `catch` block: the promise around `dns.resolve4`. *)
Definition resolve_fallback (o : Dns4Outcome) : list JsVal :=
  match o with
  | Dns4Err _ => []
  | Dns4Ok addresses => map JStr addresses
  end.

(** `resolve(hostname)`: the lookups issued and the completion of the
    returned promise. *)
Definition resolve (net : Network) (hostname : string)
  : list Lookup * Completion (list JsVal) :=
  match resolve_try (axios_get net hostname) with
  | Normal (Some r) => ([DohQuery hostname], Normal r)
  | Normal None => ([DohQuery hostname], Normal [])
  | Throw _ =>
      ([DohQuery hostname; DnsResolve4 hostname],
       Normal (resolve_fallback (dns_resolve4 net hostname)))
  end.

Definition fallbacks (ls : list Lookup) : nat :=
  List.length (filter (fun l => match l with DnsResolve4 _ => true | _ => false end) ls).

(* ================================================================== *)
(** ** LightweightProxy *)
(* ================================================================== *)

(** A port handed to `net.connect`: a string taken from the request or a
    numeric default. *)
Inductive Port : Type :=
| PortStr (s : string)
| PortNum (n : Z).

(** The two fields of a parsed `URL` the proxy reads. *)
Record URLRecord : Type := {
  url_hostname : string;
  url_port : string
}.

(** Library functions of the runtime the proxy calls.  `parseURL input base`
    is `new URL(input, base)` (`None`: it throws); `legalPort p` tells whether
    `net.connect` accepts the port (otherwise it throws synchronously). *)
Record Runtime : Type := {
  network : Network;
  parseURL : string -> string -> option URLRecord;
  legalPort : Port -> bool
}.

(** The request object handed to both listeners (`http.IncomingMessage`):
    as a readable stream it carries the request body only. *)
Record IncomingMessage : Type := {
  req_method : string;
  req_url : string;
  req_host : option string;
  req_body : string
}.

Inductive Endpoint : Type := Client | Target.

(** Calls the proxy makes on the network and on the client objects.
    `PipeReqToTarget` is `clientReq.pipe(targetSocket)`, `PipeTargetToRes` is
    `targetSocket.pipe(clientRes)`, `PipeSocket` a pipe between the two raw
    sockets of a tunnel. *)
Inductive Effect : Type :=
| Resolver (l : Lookup)
| NetConnect (port : Port) (host : JsVal)
| ResWriteHead (status : Z)
| ResEnd (body : string)
| SocketWrite (to : Endpoint) (data : string)
| SocketEnd (which : Endpoint)
| PipeReqToTarget
| PipeTargetToRes
| PipeSocket (from to : Endpoint).

(** What a handler has done when its async function returns, and the
    listeners it has left behind. *)
Record Handling : Type := {
  immediate : list Effect;
  on_connect : list Effect;
  on_target_error : list Effect;
  on_client_error : list Effect
}.

Definition done (effects : list Effect) : Handling :=
  {| immediate := effects; on_connect := [];
     on_target_error := []; on_client_error := [] |}.

Definition CRLF : string :=
  String (ascii_of_nat 13) (String (ascii_of_nat 10) EmptyString).

Definition connection_established : string :=
  "HTTP/1.1 200 Connection Established" ++ CRLF ++ CRLF.

(** `p || d` for a port read from a URL record (a string, empty when absent). *)
Definition port_or (p : string) (d : Z) : Port :=
  if truthy (JStr p) then PortStr p else PortNum d.

(** `p || d` for a destructured array element (`undefined` when absent). *)
Definition opt_port_or (p : option string) (d : Z) : Port :=
  match p with
  | Some s => port_or s d
  | None => PortNum d
  end.

(** The template literal `http://${clientReq.headers.host}`. *)
Definition base_url (host : option string) : string :=
  "http://" ++ match host with Some h => h | None => "undefined" end.

Definition handleRequest (rt : Runtime) (clientReq : IncomingMessage) : Handling :=
  match parseURL rt (req_url clientReq) (base_url (req_host clientReq)) with
  | None => done [ResWriteHead 500; ResEnd "Proxy Error"]
  | Some targetUrl =>
      let (lookups, result) := resolve (network rt) (url_hostname targetUrl) in
      let looked := map Resolver lookups in
      match result with
      | Throw _ => done (looked ++ [ResWriteHead 500; ResEnd "Proxy Error"])
      | Normal [] => done (looked ++ [ResWriteHead 502; ResEnd "DNS Failed"])
      | Normal (first :: _) =>
          let port := port_or (url_port targetUrl) 80 in
          if legalPort rt port
          then {| immediate := looked ++ [NetConnect port first];
                  on_connect := [PipeReqToTarget; PipeTargetToRes];
                  on_target_error := [ResWriteHead 502; ResEnd "Connection Failed"];
                  on_client_error := [] |}
          else done (looked ++ [ResWriteHead 500; ResEnd "Proxy Error"])
      end
  end.

(** `s.split(':')`: every colon separates; the result is never empty. *)
Fixpoint split_colon (s : string) : list string :=
  match s with
  | EmptyString => [EmptyString]
  | String c rest =>
      if Ascii.eqb c ":"%char
      then EmptyString :: split_colon rest
      else match split_colon rest with
           | seg :: segs => String c seg :: segs
           | [] => [String c EmptyString]
           end
  end.

(** `const [hostname, port] = clientReq.url.split(':')` *)
Definition connect_hostname (url : string) : string :=
  nth 0 (split_colon url) EmptyString.

Definition connect_port (url : string) : option string :=
  nth_error (split_colon url) 1.

Definition handleHttps (rt : Runtime) (clientReq : IncomingMessage) (head : string)
  : Handling :=
  let hostname := connect_hostname (req_url clientReq) in
  let port := connect_port (req_url clientReq) in
  let (lookups, result) := resolve (network rt) hostname in
  let looked := map Resolver lookups in
  match result with
  | Throw _ => done (looked ++ [SocketEnd Client])
  | Normal [] => done (looked ++ [SocketEnd Client])
  | Normal (first :: _) =>
      let p := opt_port_or port 443 in
      if legalPort rt p
      then {| immediate := looked ++ [NetConnect p first];
              on_connect := [SocketWrite Client connection_established;
                             SocketWrite Target head;
                             PipeSocket Client Target;
                             PipeSocket Target Client];
              on_target_error := [SocketEnd Client];
              on_client_error := [SocketEnd Target] |}
      else done (looked ++ [SocketEnd Client])
  end.

(** Events the sockets of one connection raise after the handler returned. *)
Inductive SocketEvent : Type :=
| TargetConnected
| TargetError
| ClientError.

(** One connection: the listeners, whether the connect callback has fired
    (it is a once-listener), and everything done so far. *)
Record Conn : Type := {
  listeners : Handling;
  connected : bool;
  performed : list Effect
}.

Definition accept (h : Handling) : Conn :=
  {| listeners := h; connected := false; performed := immediate h |}.

Definition deliver (c : Conn) (ev : SocketEvent) : Conn :=
  match ev with
  | TargetConnected =>
      if connected c then c
      else {| listeners := listeners c; connected := true;
              performed := performed c ++ on_connect (listeners c) |}
  | TargetError =>
      {| listeners := listeners c; connected := connected c;
         performed := performed c ++ on_target_error (listeners c) |}
  | ClientError =>
      {| listeners := listeners c; connected := connected c;
         performed := performed c ++ on_client_error (listeners c) |}
  end.

Definition run_conn (h : Handling) (evs : list SocketEvent) : Conn :=
  fold_left deliver evs (accept h).

Definition is_dial (e : Effect) : bool :=
  match e with NetConnect _ _ => true | _ => false end.

Definition is_client_write (e : Effect) : bool :=
  match e with SocketWrite Client _ => true | _ => false end.

(* ================================================================== *)
(** ** Plain-HTTP exchange through the proxy *)
(* ================================================================== *)

(** The upstream server as a function on the bytes of one connection: what it
    sends back for what it has received. *)
Definition Upstream : Type := string -> string.

(** What the proxy's client gets back: status line code and body. *)
Record HttpResponse : Type := {
  status : Z;
  body : string
}.

(** `http.ServerResponse` as the handler drives it: `statusCode` starts at
    200 and is sent implicitly by the first write; a pipe into the response
    writes the source's bytes as body and ends the response with it; once
    the head is out, a later `writeHead` cannot change it. *)
Record ServerResponse : Type := {
  headSent : option Z;
  bodySent : string;
  finished : bool
}.

Definition fresh_response : ServerResponse :=
  {| headSent := None; bodySent := ""; finished := false |}.

Definition implicit_head (r : ServerResponse) : option Z :=
  match headSent r with
  | Some s => Some s
  | None => Some 200
  end.

Definition drive_response (from_target : string) (r : ServerResponse) (e : Effect)
  : ServerResponse :=
  if finished r then r
  else match e with
       | ResWriteHead s =>
           match headSent r with
           | Some _ => r
           | None => {| headSent := Some s; bodySent := bodySent r; finished := false |}
           end
       | ResEnd b =>
           {| headSent := implicit_head r; bodySent := bodySent r ++ b; finished := true |}
       | PipeTargetToRes =>
           {| headSent := implicit_head r; bodySent := bodySent r ++ from_target;
              finished := true |}
       | _ => r
       end.

(** Bytes the handler makes arrive at the upstream socket. *)
Fixpoint bytes_to_target (clientReq : IncomingMessage) (effects : list Effect) : string :=
  match effects with
  | [] => ""
  | SocketWrite Target data :: rest => data ++ bytes_to_target clientReq rest
  | PipeReqToTarget :: rest => req_body clientReq ++ bytes_to_target clientReq rest
  | _ :: rest => bytes_to_target clientReq rest
  end.

Definition response_seen (r : ServerResponse) : option HttpResponse :=
  match headSent r with
  | Some s => Some {| status := s; body := bodySent r |}
  | None => None
  end.

(** A request through the proxy to an upstream that accepts the dial. *)
Definition proxied (rt : Runtime) (up : Upstream) (clientReq : IncomingMessage)
  : option HttpResponse :=
  let effects := performed (run_conn (handleRequest rt clientReq) [TargetConnected]) in
  let from_target := up (bytes_to_target clientReq effects) in
  response_seen (fold_left (drive_response from_target) effects fresh_response).

(** The same request sent to the upstream directly: the HTTP/1.1 wire form of
    the request, and the status code and body of the answer. *)
Definition wire_request (path host : string) (clientReq : IncomingMessage) : string :=
  req_method clientReq ++ " " ++ path ++ " HTTP/1.1" ++ CRLF ++
  "Host: " ++ host ++ CRLF ++ CRLF ++ req_body clientReq.

Definition digit (c : ascii) : option Z :=
  let n := Z.of_nat (nat_of_ascii c) in
  if (48 <=? n) && (n <=? 57) then Some (n - 48) else None.

Definition status_code (raw : string) : option Z :=
  match String.substring 9 3 raw with
  | String a (String b (String c EmptyString)) =>
      match digit a, digit b, digit c with
      | Some x, Some y, Some z => Some (100 * x + 10 * y + z)
      | _, _, _ => None
      end
  | _ => None
  end.

Fixpoint after_blank_line (raw : string) : option string :=
  match raw with
  | EmptyString => None
  | String c rest =>
      if String.prefix (CRLF ++ CRLF) raw
      then Some (String.substring 4 (String.length raw - 4) raw)
      else after_blank_line rest
  end.

Definition direct (up : Upstream) (path host : string) (clientReq : IncomingMessage)
  : option HttpResponse :=
  let raw := up (wire_request path host clientReq) in
  match status_code raw, after_blank_line raw with
  | Some s, Some b => Some {| status := s; body := b |}
  | _, _ => None
  end.

(* ================================================================== *)
(** ** CleanupManager *)
(* ================================================================== *)

(** How the promise awaited by `await handler()` settles. *)
Inductive Settlement : Type :=
| Fulfilled
| Rejected (reason : JsVal).

(** What calling a handler does: it throws before returning, or it returns
    something that `await` will wait for. *)
Inductive HandlerResult : Type :=
| ThrowsSync (e : JsVal)
| Returns (s : Settlement).

Record Handler : Type := {
  hid : nat;
  hbody : HandlerResult
}.

Inductive ConsoleLine : Type :=
| CleaningUp
| CleanupWarning (message : JsVal)
| Removed
| ShutdownRequested.

(** What can be observed of the process, in order. *)
Inductive Obs : Type :=
| Console (line : ConsoleLine)
| Invoke (h : Handler)
| UnhandledRejection (e : JsVal).

(** The process: the manager's two fields, the suspended `cleanup` call (the
    loop index it awaits at and how the awaited promise will settle),
    `process._exiting`, the exit code once the process is gone, and the
    observations so far. *)
Record Proc : Type := {
  cleanupHandlers : list Handler;
  isCleaning : bool;
  awaiting : option (nat * Settlement);
  exiting : bool;
  exited : option Z;
  trace : list Obs
}.

(** `new CleanupManager()` *)
Definition constructor : Proc :=
  {| cleanupHandlers := []; isCleaning := false; awaiting := None;
     exiting := false; exited := None; trace := [] |}.

Definition observe (o : Obs) (st : Proc) : Proc :=
  {| cleanupHandlers := cleanupHandlers st; isCleaning := isCleaning st;
     awaiting := awaiting st; exiting := exiting st; exited := exited st;
     trace := trace st ++ [o] |}.

Definition set_isCleaning (st : Proc) : Proc :=
  {| cleanupHandlers := cleanupHandlers st; isCleaning := true;
     awaiting := awaiting st; exiting := exiting st; exited := exited st;
     trace := trace st |}.

Definition set_awaiting (a : option (nat * Settlement)) (st : Proc) : Proc :=
  {| cleanupHandlers := cleanupHandlers st; isCleaning := isCleaning st;
     awaiting := a; exiting := exiting st; exited := exited st;
     trace := trace st |}.

Definition set_exiting (st : Proc) : Proc :=
  {| cleanupHandlers := cleanupHandlers st; isCleaning := isCleaning st;
     awaiting := awaiting st; exiting := true; exited := exited st;
     trace := trace st |}.

Definition reallyExit (code : Z) (st : Proc) : Proc :=
  {| cleanupHandlers := cleanupHandlers st; isCleaning := isCleaning st;
     awaiting := awaiting st; exiting := exiting st; exited := Some code;
     trace := trace st |}.

(** `addCleanupHandler(handler)` *)
Definition addCleanupHandler (h : Handler) (st : Proc) : Proc :=
  {| cleanupHandlers := cleanupHandlers st ++ [h]; isCleaning := isCleaning st;
     awaiting := awaiting st; exiting := exiting st; exited := exited st;
     trace := trace st |}.

(** `process.exit(code)`: the first call marks the process as exiting and
    runs the 'exit' listeners, synchronously; a call made while exiting
    leaves at once.  Whatever a listener left suspended is abandoned. *)
Definition process_exit_with (on_exit : Proc -> Proc) (code : Z) (st : Proc) : Proc :=
  if exiting st then reallyExit code st
  else
    let st' := on_exit (set_exiting st) in
    match exited st' with
    | Some _ => st'
    | None => reallyExit code st'
    end.

(** `catch (error) { console.log('Cleanup warning:', error.message); }`:
    the state with the warning logged, or the value thrown when reading
    `error.message` itself throws. *)
Definition catch_clause (error : JsVal) (st : Proc) : Proc + JsVal :=
  match get_prop error "message" with
  | Normal m => inl (observe (Console (CleanupWarning m)) st)
  | Throw e => inr e
  end.

(** The `for ... of` loop of `cleanup` from index [i] on, [rest] being the
    handlers from that index, up to the next suspension: it stops at the
    first `await` of a returned value, leaves through `process.exit(0)`
    after the last handler, or is left by an exception thrown in the
    `catch` clause (the promise of `cleanup` rejects and nobody handles it;
    the 'uncaughtException' listener this raises is `cleanup` again, which
    finds the flag set). *)
Fixpoint run_handlers (pexit : Z -> Proc -> Proc) (rest : list Handler) (i : nat)
  (st : Proc) : Proc :=
  match rest with
  | [] => pexit 0 (observe (Console Removed) st)
  | h :: rest' =>
      let st1 := observe (Invoke h) st in
      match hbody h with
      | ThrowsSync e =>
          match catch_clause e st1 with
          | inl st2 => run_handlers pexit rest' (S i) st2
          | inr e' => observe (UnhandledRejection e') st1
          end
      | Returns s => set_awaiting (Some (i, s)) st1
      end
  end.

(** `cleanup()` up to its first suspension. *)
Definition cleanup (pexit : Z -> Proc -> Proc) (st : Proc) : Proc :=
  if isCleaning st then st
  else
    let st1 := observe (Console CleaningUp) (set_isCleaning st) in
    run_handlers pexit (cleanupHandlers st1) 0 st1.

(** The awaited promise settles and `cleanup` goes on after its `await`. *)
Definition resume (pexit : Z -> Proc -> Proc) (st : Proc) : Proc :=
  match awaiting st with
  | None => st
  | Some (i, s) =>
      let st0 := set_awaiting None st in
      let rest := skipn (S i) (cleanupHandlers st0) in
      match s with
      | Fulfilled => run_handlers pexit rest (S i) st0
      | Rejected e =>
          match catch_clause e st0 with
          | inl st1 => run_handlers pexit rest (S i) st1
          | inr e' => observe (UnhandledRejection e') st0
          end
      end
  end.

(** `process.exit` as `cleanup` sees it when it runs as an 'exit' listener
    (the process is exiting already), and as everything else sees it (the
    'exit' listener registered by `setupProcessHandlers` is `cleanup`). *)
Definition exit_while_exiting : Z -> Proc -> Proc :=
  process_exit_with (fun st => st).

Definition exit_listener : Proc -> Proc :=
  cleanup exit_while_exiting.

Definition process_exit : Z -> Proc -> Proc :=
  process_exit_with exit_listener.

Inductive Signal : Type := SIGINT | SIGTERM.

(** What happens to the process, one event-loop turn each: a handler is
    registered, a listener installed by `setupProcessHandlers` fires, the
    dashboard's `/shutdown` route calls `shutdownFromWeb`, the process is
    told to exit (`process.exit(code)` elsewhere, or nothing left to do), or
    the promise `cleanup` is waiting for settles. *)
Inductive Event : Type :=
| Register (h : Handler)
| OnSignal (s : Signal)
| OnUncaughtException
| OnDisconnect
| WebShutdown
| ProcessExit (code : Z)
| Settle.

(** `shutdownFromWeb()` *)
Definition shutdownFromWeb (st : Proc) : Proc :=
  cleanup process_exit (observe (Console ShutdownRequested) st).

Definition step (st : Proc) (ev : Event) : Proc :=
  match exited st with
  | Some _ => st
  | None =>
      match ev with
      | Register h => addCleanupHandler h st
      | OnSignal _ | OnUncaughtException | OnDisconnect => cleanup process_exit st
      | WebShutdown => shutdownFromWeb st
      | ProcessExit code => process_exit code st
      | Settle => resume process_exit st
      end
  end.

Definition run (evs : list Event) : Proc :=
  fold_left step evs constructor.

Fixpoint invocations (t : list Obs) : list Handler :=
  match t with
  | [] => []
  | Invoke h :: rest => h :: invocations rest
  | _ :: rest => invocations rest
  end.

Fixpoint warnings (t : list Obs) : list JsVal :=
  match t with
  | [] => []
  | Console (CleanupWarning m) :: rest => m :: warnings rest
  | _ :: rest => warnings rest
  end.

(** The three handlers `main` registers: `proxy.stop()` and
    `dashboard.stop()` return promises, the third returns `undefined`. *)
Definition proxy_stop : Handler := {| hid := 0; hbody := Returns Fulfilled |}.
Definition dashboard_stop : Handler := {| hid := 1; hbody := Returns Fulfilled |}.
Definition kill_live_server : Handler := {| hid := 2; hbody := Returns Fulfilled |}.

Definition main_handlers : list Event :=
  [Register proxy_stop; Register dashboard_stop; Register kill_live_server].

(* ================================================================== *)
(** ** Concrete scenarios *)
(* ================================================================== *)

(** The DoH endpoint answers NXDOMAIN-style, without an `Answer` member,
    while conventional resolution would know the host. *)
Definition net_no_answer : Network :=
  {| axios_get := fun _ => AxiosResponse (JObj [("Status", JNum 3)]);
     dns_resolve4 := fun _ => Dns4Ok ["10.0.0.7"] |}.

(** The DoH endpoint is unreachable; conventional resolution works. *)
Definition net_doh_down : Network :=
  {| axios_get := fun _ => AxiosRejects (ErrorObj "timeout of 3000ms exceeded");
     dns_resolve4 := fun _ => Dns4Ok ["10.0.0.7"] |}.

(** Both lookups fail. *)
Definition net_dead : Network :=
  {| axios_get := fun _ => AxiosRejects (ErrorObj "getaddrinfo ENOTFOUND");
     dns_resolve4 := fun _ => Dns4Err (ErrorObj "queryA ENOTFOUND") |}.

(** The DoH endpoint answers with a CNAME record followed by an A record. *)
Definition two_records : list (list (string * JsVal)) :=
  [ [("name", JStr "example.local"); ("type", JNum 5); ("data", JStr "alias.example.local.")];
    [("name", JStr "alias.example.local"); ("type", JNum 1); ("data", JStr "10.0.0.7")] ].

Definition net_doh_up : Network :=
  {| axios_get := fun _ =>
       AxiosResponse (JObj [("Status", JNum 0); ("Answer", JArr (map JObj two_records))]);
     dns_resolve4 := fun _ => Dns4Err (ErrorObj "unused") |}.

(** A URL parser good enough for `http://host/` style targets without port,
    and a port check that accepts everything. *)
Definition rt_of (net : Network) : Runtime :=
  {| network := net;
     parseURL := fun _ _ => Some {| url_hostname := "example.local"; url_port := "" |};
     legalPort := fun _ => true |}.

Definition get_root : IncomingMessage :=
  {| req_method := "GET"; req_url := "http://example.local/";
     req_host := Some "example.local"; req_body := "" |}.

Definition connect_443 : IncomingMessage :=
  {| req_method := "CONNECT"; req_url := "example.local:443";
     req_host := Some "example.local:443"; req_body := "" |}.

(** An upstream that answers a well-formed GET with 404 and says nothing to
    anything else. *)
Definition upstream_404 : Upstream :=
  fun received =>
    if String.prefix "GET " received
    then "HTTP/1.1 404 Not Found" ++ CRLF ++ "Content-Length: 4" ++ CRLF ++ CRLF ++ "nope"
    else "".

(** A handler whose promise rejects, and a handler that throws when called. *)
Definition rejects_with (n : nat) (reason : JsVal) : Handler :=
  {| hid := n; hbody := Returns (Rejected reason) |}.

Definition throws (n : nat) (e : JsVal) : Handler :=
  {| hid := n; hbody := ThrowsSync e |}.

(** Words used to state what `split(':')` computes: a string without colon,
    and segments put back together with colons between them. *)
Fixpoint colon_free (s : string) : bool :=
  match s with
  | EmptyString => true
  | String c rest => negb (Ascii.eqb c ":"%char) && colon_free rest
  end.

Fixpoint join_colon (segs : list string) : string :=
  match segs with
  | [] => EmptyString
  | [seg] => seg
  | seg :: rest => seg ++ ":" ++ join_colon rest
  end.

(** Words used to state what a cleanup pass does. *)

(** The value a handler fails with, if it fails. *)
Definition failure (h : Handler) : option JsVal :=
  match hbody h with
  | ThrowsSync e => Some e
  | Returns (Rejected e) => Some e
  | Returns Fulfilled => None
  end.

(** A handler that succeeds, or fails with a value whose `message` can be
    read (anything but `null` and `undefined`). *)
Definition readable_failure (h : Handler) : bool :=
  match failure h with
  | Some JUndefined | Some JNull => false
  | _ => true
  end.

(** The message logged for a failed handler. *)
Definition message_of (e : JsVal) : JsVal :=
  match e with
  | JObj fields => lookup_field "message" fields
  | _ => JUndefined
  end.

Fixpoint expected_warnings (hs : list Handler) : list JsVal :=
  match hs with
  | [] => []
  | h :: rest =>
      match failure h with
      | Some e => message_of e :: expected_warnings rest
      | None => expected_warnings rest
      end
  end.

(** Handlers at which `cleanup` suspends, one `Settle` each. *)
Definition suspends (h : Handler) : bool :=
  match hbody h with
  | Returns _ => true
  | ThrowsSync _ => false
  end.

Definition settles_needed (hs : list Handler) : nat :=
  List.length (filter suspends hs).

(** The events whose listener is `cleanup` in a process that keeps running:
    the two signals, an uncaught exception, a disconnect, the web request. *)
Definition starts_cleanup (ev : Event) : bool :=
  match ev with
  | OnSignal _ | OnUncaughtException | OnDisconnect | WebShutdown => true
  | Register _ | ProcessExit _ | Settle => false
  end.

(** The state of the process after `hs` were registered. *)
Definition registered (hs : list Handler) : Proc :=
  {| cleanupHandlers := hs; isCleaning := false; awaiting := None;
     exiting := false; exited := None; trace := [] |}.

(** An exit function that, called during cleanup, touches nothing the
    manager owns and nothing that was observed. *)
Definition quiet (pexit : Z -> Proc -> Proc) : Prop :=
  forall code st,
    isCleaning st = true ->
    trace (pexit code st) = trace st /\
    cleanupHandlers (pexit code st) = cleanupHandlers st /\
    isCleaning (pexit code st) = true /\
    awaiting (pexit code st) = awaiting st.

(** The invocations so far are the first [k] registered handlers, in
    registration order; nothing is invoked or awaited before the flag is
    set; a suspended pass waits for the last handler it invoked. *)
Definition consistent (st : Proc) : Prop :=
  (isCleaning st = false -> invocations (trace st) = [] /\ awaiting st = None) /\
  exists k,
    invocations (trace st) = firstn k (cleanupHandlers st) /\
    (k <= List.length (cleanupHandlers st))%nat /\
    forall i s, awaiting st = Some (i, s) -> k = S i.

(* ================================================================== *)
(** ** LiveServerManager *)
(* ================================================================== *)

(** Strings are read here as sequences of code units below 256; among those
    the class `\s` of a regular expression holds tab, line feed, vertical
    tab, form feed, carriage return, space and no-break space. *)
Definition is_space (c : ascii) : bool :=
  let n := nat_of_ascii c in
  ((9 <=? n) && (n <=? 13) || (n =? 32) || (n =? 160))%nat.

(** `hay.includes(needle)` *)
Fixpoint includes (needle hay : string) : bool :=
  String.prefix needle hay ||
  match hay with
  | EmptyString => false
  | String _ rest => includes needle rest
  end.

Fixpoint drop (n : nat) (s : string) : string :=
  match n, s with
  | O, _ => s
  | S n', String _ rest => drop n' rest
  | S _, EmptyString => EmptyString
  end.

(** The longest run of non-space code units at the head of a string: what a
    greedy `[^\s]+` consumes. *)
Fixpoint nonspace_run (s : string) : string :=
  match s with
  | EmptyString => EmptyString
  | String c rest => if is_space c then EmptyString else String c (nonspace_run rest)
  end.

(** `data.match(/http:\/\/[^\s]+/)`: the leftmost place where `http://` is
    followed by at least one non-space code unit, with all the non-space
    code units that follow; `None` is `null`. *)
Fixpoint match_url (data : string) : option string :=
  match data with
  | EmptyString => None
  | String _ rest =>
      if String.prefix "http://" data
      then match nonspace_run (drop 7 data) with
           | EmptyString => match_url rest
           | run => Some ("http://" ++ run)
           end
      else match_url rest
  end.

(** The listener on the child's stdout: `Normal (Some url)` when it logs the
    URL and calls `resolve(url)`, `Normal None` when it does nothing, a
    throw when `match` gave `null` and `[0]` is read from it. *)
Definition on_stdout_data (data : string) : Completion (option string) :=
  if includes "http://" data
  then match match_url data with
       | Some url => Normal (Some url)
       | None => Throw (TypeError "Cannot read properties of null (reading '0')")
       end
  else Normal None.

(** Words used to state what the listener finds. *)
Fixpoint space_free (s : string) : bool :=
  match s with
  | EmptyString => true
  | String c rest => negb (is_space c) && space_free rest
  end.

(** [s] is empty or begins with a space. *)
Definition stops_here (s : string) : bool :=
  match s with
  | EmptyString => true
  | String c _ => is_space c
  end.

(* ================================================================== *)
(** ** Words for further properties *)
(* ================================================================== *)

(** `ans.data` as `resolve` reads it from an element of `Answer` that is
    neither `null` nor `undefined`. *)
Definition data_of (ans : JsVal) : JsVal :=
  match ans with
  | JObj fields => lookup_field "data" fields
  | _ => JUndefined
  end.

Definition nullish (v : JsVal) : bool :=
  match v with
  | JUndefined | JNull => true
  | _ => false
  end.

Definition is_array (v : JsVal) : bool :=
  match v with
  | JArr _ => true
  | _ => false
  end.

(** The DoH outcomes after which the `try` block of `resolve` throws: the
    request rejects, the body is `null` or `undefined`, `Answer` is truthy
    but no array, or `Answer` is an array holding `null` or `undefined`. *)
Definition doh_unreadable (o : AxiosOutcome) : bool :=
  match o with
  | AxiosRejects _ => true
  | AxiosResponse data =>
      match data with
      | JUndefined | JNull => true
      | JObj fields =>
          match lookup_field "Answer" fields with
          | JArr items => existsb nullish items
          | answer => truthy answer
          end
      | _ => false
      end
  end.

(** What the client of a plain-HTTP request has been sent once the
    effects of its connection were carried out, the upstream having sent
    [from_target]. *)
Definition client_response (from_target : string) (effects : list Effect)
  : ServerResponse :=
  fold_left (drive_response from_target) effects fresh_response.

(** A handler that throws when called, with a failure whose message can be
    read: `cleanup` passes it without suspending. *)
Definition passes_at_once (h : Handler) : bool :=
  negb (suspends h) && readable_failure h.

(** A DoH answer whose first record has no `data`, whose second element is
    no record, and whose third is an A record. *)
Definition sparse_items : list JsVal :=
  [JObj [("name", JStr "a")]; JNum 7; JObj [("data", JStr "10.0.0.7")]].

Definition net_sparse_answer : Network :=
  {| axios_get := fun _ => AxiosResponse (JObj [("Answer", JArr sparse_items)]);
     dns_resolve4 := fun _ => Dns4Ok [] |}.

(** An exception thrown by the stdout listener is caught by nobody: the
    process raises 'uncaughtException'. *)
Definition stdout_events (data : string) : list Event :=
  match on_stdout_data data with
  | Throw _ => [OnUncaughtException]
  | Normal _ => []
  end.

(* ================================================================== *)
(** * Properties of the resolver *)
(* ================================================================== *)

Lemma mapM_data_of_objects (records : list (list (string * JsVal))) :
  mapM (fun ans => get_prop ans "data") (map JObj records)
  = Normal (map (lookup_field "data") records).
Proof.
  induction records as [|r rest IH]; simpl.
  - reflexivity.
  - rewrite IH. reflexivity.
Qed.

Lemma resolve_never_throws (net : Network) (hostname : string) :
  exists r, snd (resolve net hostname) = Normal r.
Proof.
  unfold resolve.
  destruct (resolve_try (axios_get net hostname)) as [[r|]|e]; simpl; eauto.
Qed.

Lemma resolve_fallbacks_le_1 (net : Network) (hostname : string) :
  (fallbacks (fst (resolve net hostname)) <= 1)%nat.
Proof.
  unfold resolve.
  destruct (resolve_try (axios_get net hostname)) as [[r|]|e];
    unfold fallbacks; simpl; lia.
Qed.

(** C2, as stated, fails: a DoH response without answer records is not
    followed by the conventional lookup; `resolve` returns the empty
    sequence although the conventional resolver knows the host. *)
Lemma resolve_no_answer_no_fallback :
  resolve_try (axios_get net_no_answer "example.local") = Normal None /\
  fallbacks (fst (resolve net_no_answer "example.local")) <> 1%nat /\
  snd (resolve net_no_answer "example.local") = Normal [] /\
  resolve_fallback (dns_resolve4 net_no_answer "example.local") = [JStr "10.0.0.7"].
Proof.
  repeat split; try reflexivity.
  vm_compute. discriminate.
Qed.

(** C2, amended: `resolve` never throws and issues at most one conventional
    lookup.  It issues that lookup exactly when the DoH request rejects
    (error, timeout) or reading the answer throws, and then returns the
    conventional addresses, or the empty sequence if that lookup fails too.
    A DoH response whose `Answer` is absent (or otherwise falsy) yields the
    empty sequence with no conventional lookup. *)
Theorem resolve_fallback_on_throw_only (net : Network) (hostname : string) :
  (exists r, snd (resolve net hostname) = Normal r) /\
  (fallbacks (fst (resolve net hostname)) <= 1)%nat /\
  (forall e, resolve_try (axios_get net hostname) = Throw e ->
     fst (resolve net hostname) = [DohQuery hostname; DnsResolve4 hostname] /\
     snd (resolve net hostname) = Normal (resolve_fallback (dns_resolve4 net hostname))) /\
  (forall e, axios_get net hostname = AxiosRejects e ->
     resolve_try (axios_get net hostname) = Throw e) /\
  (forall err, dns_resolve4 net hostname = Dns4Err err ->
     resolve_fallback (dns_resolve4 net hostname) = []) /\
  (forall addresses, dns_resolve4 net hostname = Dns4Ok addresses ->
     resolve_fallback (dns_resolve4 net hostname) = map JStr addresses) /\
  (forall data answer,
     axios_get net hostname = AxiosResponse data ->
     get_prop data "Answer" = Normal answer ->
     truthy answer = false ->
     resolve net hostname = ([DohQuery hostname], Normal [])) /\
  (fallbacks (fst (resolve net hostname)) = 1%nat <->
   exists e, resolve_try (axios_get net hostname) = Throw e).
Proof.
  split; [apply resolve_never_throws|].
  split; [apply resolve_fallbacks_le_1|].
  split.
  { intros e H. unfold resolve. rewrite H. split; reflexivity. }
  split.
  { intros e H. rewrite H. reflexivity. }
  split.
  { intros err H. rewrite H. reflexivity. }
  split.
  { intros addresses H. rewrite H. reflexivity. }
  split.
  { intros data answer Hget Hans Hfalsy.
    unfold resolve, resolve_try. rewrite Hget. simpl. rewrite Hans. simpl.
    rewrite Hfalsy. reflexivity. }
  unfold resolve.
  destruct (resolve_try (axios_get net hostname)) as [[r|]|e];
    unfold fallbacks; simpl; split.
  - discriminate.
  - intros [e H]. discriminate.
  - discriminate.
  - intros [e H]. discriminate.
  - intros _. eauto.
  - reflexivity.
Qed.

Lemma resolve_fallback_on_throw_only_witness :
  resolve net_doh_down "example.local"
  = ([DohQuery "example.local"; DnsResolve4 "example.local"], Normal [JStr "10.0.0.7"]) /\
  resolve net_dead "example.local"
  = ([DohQuery "example.local"; DnsResolve4 "example.local"], Normal []).
Proof.
  split.
  - destruct (resolve_fallback_on_throw_only net_doh_down "example.local")
      as (_ & _ & Hthrow & Hrej & _).
    destruct (Hthrow _ (Hrej _ eq_refl)) as [Hl Hr].
    rewrite (surjective_pairing (resolve net_doh_down "example.local")).
    rewrite Hl, Hr. reflexivity.
  - destruct (resolve_fallback_on_throw_only net_dead "example.local")
      as (_ & _ & Hthrow & Hrej & _).
    destruct (Hthrow _ (Hrej _ eq_refl)) as [Hl Hr].
    rewrite (surjective_pairing (resolve net_dead "example.local")).
    rewrite Hl, Hr. reflexivity.
Defined.

(** C8: when the DoH request succeeds and its body carries an `Answer`
    array of records, `resolve` returns the `data` member of each record, in
    the order of the array, nothing dropped and nothing added, and makes no
    conventional lookup. *)
Theorem resolve_returns_answer_data_in_order
  (net : Network) (hostname : string) (data : JsVal)
  (records : list (list (string * JsVal))) :
  axios_get net hostname = AxiosResponse data ->
  get_prop data "Answer" = Normal (JArr (map JObj records)) ->
  resolve net hostname = ([DohQuery hostname], Normal (map (lookup_field "data") records)).
Proof.
  intros Hget Hans.
  unfold resolve, resolve_try. rewrite Hget. simpl. rewrite Hans. simpl.
  rewrite mapM_data_of_objects. reflexivity.
Qed.

Lemma resolve_returns_answer_data_in_order_witness :
  resolve net_doh_up "example.local"
  = ([DohQuery "example.local"], Normal [JStr "alias.example.local."; JStr "10.0.0.7"]).
Proof.
  exact (resolve_returns_answer_data_in_order net_doh_up "example.local"
           (JObj [("Status", JNum 0); ("Answer", JArr (map JObj two_records))])
           two_records eq_refl eq_refl).
Defined.

(* ================================================================== *)
(** * Properties of the proxy *)
(* ================================================================== *)

Lemma listeners_deliver (c : Conn) (ev : SocketEvent) :
  listeners (deliver c ev) = listeners c.
Proof. destruct ev; simpl; [destruct (connected c)|..]; reflexivity. Qed.

Lemma listeners_kept (evs : list SocketEvent) :
  forall c, listeners (fold_left deliver evs c) = listeners c.
Proof.
  induction evs as [|ev evs IH]; intro c; simpl; [reflexivity|].
  rewrite IH. apply listeners_deliver.
Qed.

(** Whatever a connection has done was done by the handler itself or by one
    of the listeners it installed. *)
Lemma performed_origin (evs : list SocketEvent) :
  forall c e,
    In e (performed (fold_left deliver evs c)) ->
    In e (performed c) \/ In e (on_connect (listeners c)) \/
    In e (on_target_error (listeners c)) \/ In e (on_client_error (listeners c)).
Proof.
  induction evs as [|ev evs IH]; intros c e Hin; simpl in Hin; [now left|].
  apply IH in Hin.
  destruct ev; simpl in Hin.
  - destruct (connected c); simpl in Hin; rewrite ?in_app_iff in Hin; tauto.
  - rewrite in_app_iff in Hin; tauto.
  - rewrite in_app_iff in Hin; tauto.
Qed.

Lemma performed_done (effects : list Effect) (evs : list SocketEvent) :
  performed (run_conn (done effects) evs) = effects.
Proof.
  unfold run_conn.
  assert (G : forall c, on_connect (listeners c) = [] ->
                        on_target_error (listeners c) = [] ->
                        on_client_error (listeners c) = [] ->
                        performed (fold_left deliver evs c) = performed c).
  { induction evs as [|ev evs IH]; intros c H1 H2 H3; simpl; [reflexivity|].
    rewrite IH.
    - destruct ev; simpl; [destruct (connected c); simpl|..];
        rewrite ?H1, ?H2, ?H3, ?app_nil_r; reflexivity.
    - rewrite listeners_deliver. exact H1.
    - rewrite listeners_deliver. exact H2.
    - rewrite listeners_deliver. exact H3. }
  apply G; reflexivity.
Qed.

Lemma not_yet_connected (pre : list SocketEvent) :
  forall c, connected c = false -> ~ In TargetConnected pre ->
            connected (fold_left deliver pre c) = false.
Proof.
  induction pre as [|ev pre IH]; intros c Hc Hnot; simpl; [exact Hc|].
  apply IH.
  - destruct ev; simpl; try exact Hc. exfalso. apply Hnot. now left.
  - intro H. apply Hnot. now right.
Qed.

Lemma run_conn_snoc (h : Handling) (pre : list SocketEvent) (ev : SocketEvent) :
  run_conn h (pre ++ [ev]) = deliver (run_conn h pre) ev.
Proof. unfold run_conn. rewrite fold_left_app. reflexivity. Qed.

(** A write to the client that only the connect listener makes cannot
    appear before the connect event. *)
Lemma client_write_needs_connect (evs : list SocketEvent) :
  forall c,
    existsb is_client_write (performed c) = false ->
    existsb is_client_write (on_target_error (listeners c)) = false ->
    existsb is_client_write (on_client_error (listeners c)) = false ->
    existsb is_client_write (performed (fold_left deliver evs c)) = true ->
    In TargetConnected evs.
Proof.
  induction evs as [|ev evs IH]; intros c Hp Ht Hc Hw; simpl in Hw.
  - congruence.
  - destruct ev; [now left|right..].
    + apply (IH (deliver c TargetError)); simpl; try assumption.
      rewrite existsb_app, Hp, Ht. reflexivity.
    + apply (IH (deliver c ClientError)); simpl; try assumption.
      rewrite existsb_app, Hp, Hc. reflexivity.
Qed.


Lemma no_client_write_in_lookups (lookups : list Lookup) (tail : list Effect) :
  existsb is_client_write (map Resolver lookups ++ tail) = existsb is_client_write tail.
Proof.
  induction lookups as [|l ls IH]; simpl; [reflexivity|exact IH].
Qed.

Lemma dial_in_lookups (lookups : list Lookup) (tail : list Effect) (p : Port) (a : JsVal) :
  In (NetConnect p a) (map Resolver lookups ++ tail) -> In (NetConnect p a) tail.
Proof.
  induction lookups as [|l ls IH]; simpl; [tauto|].
  intros [H|H]; [discriminate|auto].
Qed.

(** The two handlers, by the outcome of the resolution. *)
Lemma handleHttps_resolved (rt : Runtime) (clientReq : IncomingMessage) (head : string)
  (lookups : list Lookup) (first : JsVal) (others : list JsVal) :
  resolve (network rt) (connect_hostname (req_url clientReq))
  = (lookups, Normal (first :: others)) ->
  handleHttps rt clientReq head
  = let p := opt_port_or (connect_port (req_url clientReq)) 443 in
    if legalPort rt p
    then {| immediate := map Resolver lookups ++ [NetConnect p first];
            on_connect := [SocketWrite Client connection_established;
                           SocketWrite Target head;
                           PipeSocket Client Target;
                           PipeSocket Target Client];
            on_target_error := [SocketEnd Client];
            on_client_error := [SocketEnd Target] |}
    else done (map Resolver lookups ++ [SocketEnd Client]).
Proof.
  intro H. unfold handleHttps. rewrite H. reflexivity.
Qed.

Lemma handleHttps_unresolved (rt : Runtime) (clientReq : IncomingMessage) (head : string)
  (lookups : list Lookup) :
  resolve (network rt) (connect_hostname (req_url clientReq)) = (lookups, Normal []) ->
  handleHttps rt clientReq head = done (map Resolver lookups ++ [SocketEnd Client]).
Proof.
  intro H. unfold handleHttps. rewrite H. reflexivity.
Qed.

Lemma handleRequest_resolved (rt : Runtime) (clientReq : IncomingMessage)
  (targetUrl : URLRecord) (lookups : list Lookup) (first : JsVal) (others : list JsVal) :
  parseURL rt (req_url clientReq) (base_url (req_host clientReq)) = Some targetUrl ->
  resolve (network rt) (url_hostname targetUrl) = (lookups, Normal (first :: others)) ->
  handleRequest rt clientReq
  = let port := port_or (url_port targetUrl) 80 in
    if legalPort rt port
    then {| immediate := map Resolver lookups ++ [NetConnect port first];
            on_connect := [PipeReqToTarget; PipeTargetToRes];
            on_target_error := [ResWriteHead 502; ResEnd "Connection Failed"];
            on_client_error := [] |}
    else done (map Resolver lookups ++ [ResWriteHead 500; ResEnd "Proxy Error"]).
Proof.
  intros Hu H. unfold handleRequest. rewrite Hu, H. reflexivity.
Qed.

Lemma handleRequest_unresolved (rt : Runtime) (clientReq : IncomingMessage)
  (targetUrl : URLRecord) (lookups : list Lookup) :
  parseURL rt (req_url clientReq) (base_url (req_host clientReq)) = Some targetUrl ->
  resolve (network rt) (url_hostname targetUrl) = (lookups, Normal []) ->
  handleRequest rt clientReq
  = done (map Resolver lookups ++ [ResWriteHead 502; ResEnd "DNS Failed"]).
Proof.
  intros Hu H. unfold handleRequest. rewrite Hu, H. reflexivity.
Qed.

(** C3: when the resolution of the request's host ends with an empty
    sequence, the plain-HTTP handler answers 502 and ends the response, and
    the CONNECT handler ends the client socket; in neither case is anything
    else ever done on the connection: no dial, and on the CONNECT path no
    byte written to the client. *)
Theorem empty_resolution_502_or_close
  (rt : Runtime) (clientReq : IncomingMessage) (head : string) :
  (forall targetUrl lookups,
     parseURL rt (req_url clientReq) (base_url (req_host clientReq)) = Some targetUrl ->
     resolve (network rt) (url_hostname targetUrl) = (lookups, Normal []) ->
     forall evs,
       performed (run_conn (handleRequest rt clientReq) evs)
       = (map Resolver lookups ++ [ResWriteHead 502; ResEnd "DNS Failed"])%list /\
       existsb is_dial (performed (run_conn (handleRequest rt clientReq) evs)) = false) /\
  (forall lookups,
     resolve (network rt) (connect_hostname (req_url clientReq)) = (lookups, Normal []) ->
     forall evs,
       performed (run_conn (handleHttps rt clientReq head) evs)
       = (map Resolver lookups ++ [SocketEnd Client])%list /\
       existsb is_dial (performed (run_conn (handleHttps rt clientReq head) evs)) = false /\
       existsb is_client_write (performed (run_conn (handleHttps rt clientReq head) evs))
       = false).
Proof.
  split.
  - intros targetUrl lookups Hu Hr evs.
    rewrite (handleRequest_unresolved _ _ _ _ Hu Hr), performed_done.
    split; [reflexivity|].
    clear. induction lookups; simpl; auto.
  - intros lookups Hr evs.
    rewrite (handleHttps_unresolved _ _ _ _ Hr), performed_done.
    split; [reflexivity|].
    split; clear; induction lookups; simpl; auto.
Qed.

Lemma empty_resolution_502_or_close_witness :
  performed (run_conn (handleRequest (rt_of net_dead) get_root) [TargetError; ClientError])
  = [Resolver (DohQuery "example.local"); Resolver (DnsResolve4 "example.local");
     ResWriteHead 502; ResEnd "DNS Failed"] /\
  performed (run_conn (handleHttps (rt_of net_dead) connect_443 "") [TargetConnected])
  = [Resolver (DohQuery "example.local"); Resolver (DnsResolve4 "example.local");
     SocketEnd Client].
Proof.
  destruct (empty_resolution_502_or_close (rt_of net_dead) get_root "") as [Hhttp _].
  destruct (empty_resolution_502_or_close (rt_of net_dead) connect_443 "") as [_ Hconnect].
  split.
  - exact (proj1 (Hhttp {| url_hostname := "example.local"; url_port := "" |}
                    [DohQuery "example.local"; DnsResolve4 "example.local"]
                    eq_refl eq_refl [TargetError; ClientError])).
  - exact (proj1 (Hconnect [DohQuery "example.local"; DnsResolve4 "example.local"]
                    eq_refl [TargetConnected])).
Defined.

(** C4: on a CONNECT request whose host resolved to a non-empty address
    list, nothing is written to the client before the connect event of the
    upstream socket; when the dialled socket connects, the handler writes
    the line `HTTP/1.1 200 Connection Established` and a blank line to the
    client, then the buffered head to the upstream, then pipes client to
    upstream and upstream to client; an error on the upstream socket ends
    the client socket and an error on the client socket ends the upstream
    socket. *)
Theorem tunnel_established_only_after_dial
  (rt : Runtime) (clientReq : IncomingMessage) (head : string)
  (lookups : list Lookup) (first : JsVal) (others : list JsVal) :
  resolve (network rt) (connect_hostname (req_url clientReq))
  = (lookups, Normal (first :: others)) ->
  let conn := run_conn (handleHttps rt clientReq head) in
  (forall evs,
     existsb is_client_write (performed (conn evs)) = true -> In TargetConnected evs) /\
  (existsb is_dial (immediate (handleHttps rt clientReq head)) = true ->
   forall pre,
     (~ In TargetConnected pre ->
      performed (conn (pre ++ [TargetConnected])%list)
      = (performed (conn pre)
         ++ [SocketWrite Client ("HTTP/1.1 200 Connection Established" ++ CRLF ++ CRLF);
             SocketWrite Target head;
             PipeSocket Client Target;
             PipeSocket Target Client])%list) /\
     performed (conn (pre ++ [TargetError])%list)
     = (performed (conn pre) ++ [SocketEnd Client])%list /\
     performed (conn (pre ++ [ClientError])%list)
     = (performed (conn pre) ++ [SocketEnd Target])%list).
Proof.
  intros Hr conn. subst conn.
  rewrite (handleHttps_resolved _ _ _ _ _ _ Hr). cbv zeta.
  destruct (legalPort rt (opt_port_or (connect_port (req_url clientReq)) 443)).
  - split.
    + intros evs Hw. unfold run_conn in Hw.
      apply client_write_needs_connect in Hw; try reflexivity; [exact Hw|].
      simpl. rewrite no_client_write_in_lookups. reflexivity.
    + intros _ pre. repeat split.
      * intro Hnot. rewrite run_conn_snoc. unfold deliver.
        unfold run_conn at 1. rewrite not_yet_connected; [|reflexivity|exact Hnot].
        unfold run_conn. rewrite listeners_kept. reflexivity.
      * rewrite run_conn_snoc. unfold run_conn. simpl.
        rewrite listeners_kept. reflexivity.
      * rewrite run_conn_snoc. unfold run_conn. simpl.
        rewrite listeners_kept. reflexivity.
  - split.
    + intros evs Hw. rewrite performed_done, no_client_write_in_lookups in Hw.
      discriminate.
    + intro Hd. simpl in Hd. exfalso. clear -Hd.
      induction lookups; simpl in Hd; [discriminate|auto].
Qed.

Lemma tunnel_established_only_after_dial_witness :
  performed (run_conn (handleHttps (rt_of net_doh_down) connect_443 "hello")
               [TargetConnected; ClientError])
  = [Resolver (DohQuery "example.local"); Resolver (DnsResolve4 "example.local");
     NetConnect (PortStr "443") (JStr "10.0.0.7");
     SocketWrite Client connection_established;
     SocketWrite Target "hello";
     PipeSocket Client Target;
     PipeSocket Target Client;
     SocketEnd Target].
Proof.
  destruct (tunnel_established_only_after_dial (rt_of net_doh_down) connect_443 "hello"
              [DohQuery "example.local"; DnsResolve4 "example.local"]
              (JStr "10.0.0.7") [] eq_refl) as [_ H].
  destruct (H eq_refl [TargetConnected]) as (_ & _ & Hclient).
  destruct (H eq_refl []) as (Hconnect & _ & _).
  change [TargetConnected; ClientError] with ([TargetConnected] ++ [ClientError])%list.
  rewrite Hclient.
  change [TargetConnected] with ([] ++ [TargetConnected])%list.
  rewrite Hconnect; [reflexivity|].
  intros [].
Defined.

(** C6: on either path a dial appears among the effects of a connection
    only if the resolution of the request's host completed with a non-empty
    list; the dial comes after the resolver's lookups, goes to the first
    address of that list, and uses the declared port, 80 (plain HTTP) or 443
    (CONNECT) when none is declared.  With an empty list there is no dial. *)
Theorem dial_first_address_after_resolution
  (rt : Runtime) (clientReq : IncomingMessage) (head : string) :
  (forall p a evs,
     In (NetConnect p a) (performed (run_conn (handleRequest rt clientReq) evs)) ->
     exists targetUrl lookups others,
       parseURL rt (req_url clientReq) (base_url (req_host clientReq)) = Some targetUrl /\
       resolve (network rt) (url_hostname targetUrl) = (lookups, Normal (a :: others)) /\
       immediate (handleRequest rt clientReq)
       = (map Resolver lookups ++ [NetConnect p a])%list /\
       p = if String.eqb (url_port targetUrl) ""
           then PortNum 80 else PortStr (url_port targetUrl)) /\
  (forall p a evs,
     In (NetConnect p a) (performed (run_conn (handleHttps rt clientReq head) evs)) ->
     exists lookups others,
       resolve (network rt) (connect_hostname (req_url clientReq))
       = (lookups, Normal (a :: others)) /\
       immediate (handleHttps rt clientReq head)
       = (map Resolver lookups ++ [NetConnect p a])%list /\
       p = match connect_port (req_url clientReq) with
           | None => PortNum 443
           | Some declared =>
               if String.eqb declared "" then PortNum 443 else PortStr declared
           end).
Proof.
  split.
  - intros p a evs Hin.
    destruct (parseURL rt (req_url clientReq) (base_url (req_host clientReq)))
      as [targetUrl|] eqn:Hu.
    2:{ unfold handleRequest in Hin. rewrite Hu, performed_done in Hin.
        simpl in Hin. destruct Hin as [H|[H|[]]]; discriminate. }
    destruct (resolve (network rt) (url_hostname targetUrl)) as [lookups result] eqn:Hr.
    destruct result as [[|first others]|e].
    + rewrite (handleRequest_unresolved _ _ _ _ Hu Hr), performed_done in Hin.
      apply dial_in_lookups in Hin. destruct Hin as [H|[H|[]]]; discriminate.
    + pose proof (handleRequest_resolved _ _ _ _ _ _ Hu Hr) as Hh. cbv zeta in Hh.
      destruct (legalPort rt (port_or (url_port targetUrl) 80)).
      * rewrite Hh in Hin. unfold run_conn in Hin. apply performed_origin in Hin.
        simpl in Hin.
        destruct Hin as [Hin|[Hin|[Hin|Hin]]].
        -- apply dial_in_lookups in Hin. destruct Hin as [Hin|[]].
           injection Hin as Hp Ha. subst a.
           exists targetUrl, lookups, others.
           rewrite Hh. simpl. rewrite <- Hp.
           repeat split; try reflexivity; try assumption.
           unfold port_or. simpl. destruct (String.eqb (url_port targetUrl) ""); reflexivity.
        -- destruct Hin as [H|[H|[]]]; discriminate.
        -- destruct Hin as [H|[H|[]]]; discriminate.
        -- destruct Hin.
      * rewrite Hh, performed_done in Hin.
        apply dial_in_lookups in Hin. destruct Hin as [H|[H|[]]]; discriminate.
    + unfold handleRequest in Hin. rewrite Hu, Hr, performed_done in Hin.
      apply dial_in_lookups in Hin. destruct Hin as [H|[H|[]]]; discriminate.
  - intros p a evs Hin.
    destruct (resolve (network rt) (connect_hostname (req_url clientReq)))
      as [lookups result] eqn:Hr.
    destruct result as [[|first others]|e].
    + rewrite (handleHttps_unresolved _ _ _ _ Hr), performed_done in Hin.
      apply dial_in_lookups in Hin. destruct Hin as [H|[]]; discriminate.
    + pose proof (handleHttps_resolved _ _ head _ _ _ Hr) as Hh. cbv zeta in Hh.
      destruct (legalPort rt (opt_port_or (connect_port (req_url clientReq)) 443)).
      * rewrite Hh in Hin. unfold run_conn in Hin. apply performed_origin in Hin.
        simpl in Hin.
        destruct Hin as [Hin|[Hin|[Hin|Hin]]].
        -- apply dial_in_lookups in Hin. destruct Hin as [Hin|[]].
           injection Hin as Hp Ha. subst a.
           exists lookups, others.
           rewrite Hh. simpl. rewrite <- Hp.
           repeat split; try reflexivity; try assumption.
           unfold opt_port_or, port_or.
           destruct (connect_port (req_url clientReq)) as [declared|]; [|reflexivity].
           simpl. destruct (String.eqb declared ""); reflexivity.
        -- destruct Hin as [H|[H|[H|[H|[]]]]]; discriminate.
        -- destruct Hin as [H|[]]; discriminate.
        -- destruct Hin as [H|[]]; discriminate.
      * rewrite Hh, performed_done in Hin.
        apply dial_in_lookups in Hin. destruct Hin as [H|[]]; discriminate.
    + unfold handleHttps in Hin. rewrite Hr, performed_done in Hin.
      apply dial_in_lookups in Hin. destruct Hin as [H|[]]; discriminate.
Qed.

Lemma dial_first_address_after_resolution_witness :
  exists lookups others,
    resolve net_doh_down (connect_hostname "example.local:443")
    = (lookups, Normal (JStr "10.0.0.7" :: others)) /\
    immediate (handleHttps (rt_of net_doh_down) connect_443 "")
    = (map Resolver lookups ++ [NetConnect (PortStr "443") (JStr "10.0.0.7")])%list.
Proof.
  destruct (dial_first_address_after_resolution (rt_of net_doh_down) connect_443 "")
    as [_ H].
  destruct (H (PortStr "443") (JStr "10.0.0.7") [TargetConnected])
    as (lookups & others & Hr & Hi & _).
  - simpl. right. right. left. reflexivity.
  - exists lookups, others. split; assumption.
Defined.

(** *** The CONNECT target *)

Lemma append_empty_r (s : string) : s ++ "" = s.
Proof. induction s as [|c s IH]; simpl; [reflexivity|now rewrite IH]. Qed.

Lemma split_colon_not_nil (s : string) : split_colon s <> [].
Proof.
  destruct s as [|c rest]; simpl; [discriminate|].
  destruct (Ascii.eqb c ":"); [discriminate|].
  destruct (split_colon rest); discriminate.
Qed.

Lemma split_colon_segments (s : string) :
  Forall (fun seg => colon_free seg = true) (split_colon s).
Proof.
  induction s as [|c rest IH]; simpl.
  - repeat constructor.
  - destruct (Ascii.eqb c ":") eqn:Hc.
    + constructor; [reflexivity|exact IH].
    + destruct (split_colon rest) as [|seg segs].
      * constructor; [|constructor]. simpl. rewrite Hc. reflexivity.
      * inversion IH as [|? ? Hseg Hsegs]; subst.
        constructor; [|exact Hsegs]. simpl. rewrite Hc, Hseg. reflexivity.
Qed.

Lemma join_split_colon (s : string) : join_colon (split_colon s) = s.
Proof.
  induction s as [|c rest IH]; simpl; [reflexivity|].
  destruct (Ascii.eqb c ":") eqn:Hc.
  - apply Ascii.eqb_eq in Hc. subst c.
    pose proof (split_colon_not_nil rest) as Hne.
    destruct (split_colon rest) as [|seg segs]; [congruence|].
    change (join_colon (EmptyString :: seg :: segs))
      with (EmptyString ++ ":" ++ join_colon (seg :: segs)).
    rewrite IH. reflexivity.
  - pose proof (split_colon_not_nil rest) as Hne.
    destruct (split_colon rest) as [|seg segs]; [congruence|].
    destruct segs as [|seg' segs].
    + simpl in *. rewrite IH. reflexivity.
    + change (join_colon (String c seg :: seg' :: segs))
        with (String c (seg ++ ":" ++ join_colon (seg' :: segs))).
      change (join_colon (seg :: seg' :: segs))
        with (seg ++ ":" ++ join_colon (seg' :: segs)) in IH.
      rewrite IH. reflexivity.
Qed.

(** C10: the CONNECT handler asks the resolver for the part of the request
    target before its first colon and dials on the part between the first
    and the second colon, or on 443 when that part is absent or empty.  A
    target with more than one colon is cut at the first: for the bracketed
    IPv6 target `[::1]:443` the host looked up is `[` and the port is 443
    only because the second segment is empty. *)
Theorem connect_target_split_at_first_colon
  (rt : Runtime) (clientReq : IncomingMessage) (head : string) :
  let url := req_url clientReq in
  let hostname := connect_hostname url in
  (exists tail,
     immediate (handleHttps rt clientReq head)
     = (map Resolver (fst (resolve (network rt) hostname)) ++ tail)%list /\
     forall p a, In (NetConnect p a) tail ->
       p = match connect_port url with
           | None => PortNum 443
           | Some port => if String.eqb port "" then PortNum 443 else PortStr port
           end) /\
  colon_free hostname = true /\
  match connect_port url with
  | None => url = hostname
  | Some port =>
      colon_free port = true /\
      exists rest, url = hostname ++ ":" ++ port ++ rest /\
                   (rest = "" \/ exists rest', rest = ":" ++ rest')
  end /\
  connect_hostname "[::1]:443" = "[" /\
  connect_port "[::1]:443" = Some "" /\
  opt_port_or (connect_port "[::1]:443") 443 = PortNum 443 /\
  connect_hostname "example.local:8443" = "example.local" /\
  opt_port_or (connect_port "example.local:8443") 443 = PortStr "8443".
Proof.
  intros url hostname. subst hostname.
  split.
  { unfold handleHttps. fold url.
    destruct (resolve (network rt) (connect_hostname url)) as [lookups result].
    assert (Hport : opt_port_or (connect_port url) 443
                    = match connect_port url with
                      | None => PortNum 443
                      | Some port =>
                          if String.eqb port "" then PortNum 443 else PortStr port
                      end).
    { unfold opt_port_or, port_or. destruct (connect_port url) as [port|]; [|reflexivity].
      simpl. destruct (String.eqb port ""); reflexivity. }
    simpl fst.
    destruct result as [[|first others]|e].
    - eexists. split; [reflexivity|]. intros p a [H|[]]. discriminate.
    - destruct (legalPort rt (opt_port_or (connect_port url) 443)).
      + eexists. split; [reflexivity|]. intros p a [H|[]].
        injection H as Hp _. rewrite <- Hp. exact Hport.
      + eexists. split; [reflexivity|]. intros p a [H|[]]. discriminate.
    - eexists. split; [reflexivity|]. intros p a [H|[]]. discriminate. }
  pose proof (split_colon_segments url) as Hsegs.
  pose proof (join_split_colon url) as Hjoin.
  pose proof (split_colon_not_nil url) as Hne.
  unfold connect_hostname, connect_port.
  destruct (split_colon url) as [|h segs]; [congruence|].
  inversion Hsegs as [|? ? Hh Hrest]; subst.
  split; [exact Hh|].
  split.
  { destruct segs as [|port segs']; simpl.
    - simpl in Hjoin. congruence.
    - inversion Hrest as [|? ? Hp Hrest']; subst.
      split; [exact Hp|].
      destruct segs' as [|seg segs''].
      + exists "". split; [|now left].
        rewrite append_empty_r. symmetry. exact Hjoin.
      + exists (":" ++ join_colon (seg :: segs'')). split; [|right; eexists; reflexivity].
        rewrite <- Hjoin. reflexivity. }
  repeat split.
Qed.

(** *** Plain HTTP exchange *)


(** C5 fails on the code.  A GET for `http://example.local/` sent to the
    upstream directly is answered 404 with body `nope`; sent through the
    proxy, the upstream receives no byte of it (the request line and the
    headers are not forwarded), and the client is answered 200 with an empty
    body. *)
Theorem plain_http_get_not_passed_through :
  direct upstream_404 "/" "example.local" get_root
  = Some {| status := 404; body := "nope" |} /\
  bytes_to_target get_root
    (performed (run_conn (handleRequest (rt_of net_doh_down) get_root) [TargetConnected]))
  = "" /\
  proxied (rt_of net_doh_down) upstream_404 get_root
  = Some {| status := 200; body := "" |}.
Proof.
  repeat split; vm_compute; reflexivity.
Qed.

(* ================================================================== *)
(** * Properties of the cleanup manager *)
(* ================================================================== *)

Lemma invocations_app (t1 t2 : list Obs) :
  invocations (t1 ++ t2) = (invocations t1 ++ invocations t2)%list.
Proof.
  induction t1 as [|o t1 IH]; simpl; [reflexivity|].
  destruct o; simpl; rewrite IH; reflexivity.
Qed.

Lemma warnings_app (t1 t2 : list Obs) :
  warnings (t1 ++ t2) = (warnings t1 ++ warnings t2)%list.
Proof.
  induction t1 as [|o t1 IH]; simpl; [reflexivity|].
  destruct o as [[]| |]; simpl; rewrite IH; reflexivity.
Qed.

Lemma skipn_cons_inv {A} (i : nat) :
  forall (l : list A) (h : A) (rest : list A),
    skipn i l = h :: rest ->
    firstn (S i) l = (firstn i l ++ [h])%list /\ skipn (S i) l = rest /\
    (i < List.length l)%nat.
Proof.
  induction i as [|i IH]; intros l h rest H.
  - destruct l as [|x l]; simpl in H; [discriminate|].
    injection H as -> ->. simpl. repeat split. lia.
  - destruct l as [|x l]; simpl in H; [discriminate|].
    destruct (IH _ _ _ H) as (Hf & Hs & Hl).
    repeat split.
    + change (firstn (S (S i)) (x :: l)) with (x :: firstn (S i) l).
      rewrite Hf. reflexivity.
    + exact Hs.
    + simpl. lia.
Qed.

(** *** The guard *)

Lemma cleanup_latched (pexit : Z -> Proc -> Proc) (st : Proc) :
  isCleaning st = true -> cleanup pexit st = st.
Proof. intro H. unfold cleanup. rewrite H. reflexivity. Qed.

Lemma exit_listener_latched (st : Proc) :
  isCleaning st = true -> exit_listener st = st.
Proof. apply cleanup_latched. Qed.

Lemma quiet_exit_while_exiting : quiet exit_while_exiting.
Proof.
  intros code st H. unfold exit_while_exiting, process_exit_with.
  destruct (exiting st); simpl.
  - repeat split; assumption.
  - destruct (exited st); simpl; repeat split; assumption.
Qed.

Lemma process_exit_latched (code : Z) (st : Proc) :
  isCleaning st = true -> exiting st = false -> exited st = None ->
  process_exit code st = reallyExit code (set_exiting st).
Proof.
  intros Hc He Hx. unfold process_exit, process_exit_with. rewrite He.
  rewrite exit_listener_latched by exact Hc. simpl. rewrite Hx. reflexivity.
Qed.

Lemma quiet_process_exit : quiet process_exit.
Proof.
  intros code st H. unfold process_exit, process_exit_with.
  destruct (exiting st); simpl.
  - repeat split; assumption.
  - rewrite exit_listener_latched by exact H. simpl.
    destruct (exited st); simpl; repeat split; assumption.
Qed.

Lemma process_exit_exits (on_exit : Proc -> Proc) (code : Z) (st : Proc) :
  exists c, exited (process_exit_with on_exit code st) = Some c.
Proof.
  unfold process_exit_with. destruct (exiting st); simpl; [eauto|].
  destruct (exited (on_exit (set_exiting st))) eqn:H; [rewrite H|simpl]; eauto.
Qed.

(** *** Invocations follow the registration order, each handler at most once *)

Lemma consistent_latched (st : Proc) (k : nat) :
  isCleaning st = true ->
  invocations (trace st) = firstn k (cleanupHandlers st) ->
  (k <= List.length (cleanupHandlers st))%nat ->
  (forall i s, awaiting st = Some (i, s) -> k = S i) ->
  consistent st.
Proof.
  intros Hc Hinv Hle Hk. split.
  - intro H. congruence.
  - exists k. auto.
Qed.

Ltac proc_fields :=
  cbn [cleanupHandlers isCleaning awaiting trace exiting exited observe
       set_awaiting set_isCleaning set_exiting reallyExit addCleanupHandler] in *.

Ltac trace_simpl :=
  rewrite ?invocations_app, ?warnings_app;
  cbn [invocations warnings];
  rewrite ?app_nil_r.

Section QuietExit.

Variable pexit : Z -> Proc -> Proc.
Hypothesis Hq : quiet pexit.

Lemma run_handlers_consistent :
  forall rest i st,
    isCleaning st = true ->
    awaiting st = None ->
    rest = skipn i (cleanupHandlers st) ->
    invocations (trace st) = firstn i (cleanupHandlers st) ->
    (i <= List.length (cleanupHandlers st))%nat ->
    consistent (run_handlers pexit rest i st) /\
    isCleaning (run_handlers pexit rest i st) = true /\
    cleanupHandlers (run_handlers pexit rest i st) = cleanupHandlers st.
Proof.
  induction rest as [|h rest IH]; intros i st Hc Ha Hrest Hinv Hle;
    cbn [run_handlers].
  - destruct (Hq 0 (observe (Console Removed) st) Hc) as (Ht & Hh & Hc' & Ha').
    proc_fields.
    split; [|split; assumption].
    apply (consistent_latched _ i); try assumption.
    + rewrite Ht, Hh. trace_simpl. exact Hinv.
    + rewrite Hh. exact Hle.
    + intros j s H. congruence.
  - symmetry in Hrest. destruct (skipn_cons_inv _ _ _ _ Hrest) as (Hf & Hs & Hl).
    destruct (hbody h) as [e|s].
    + unfold catch_clause. destruct (get_prop e "message") as [m|e'].
      * pose proof (IH (S i) (observe (Console (CleanupWarning m))
                                (observe (Invoke h) st))) as P.
        proc_fields. apply P; try assumption.
        -- symmetry. exact Hs.
        -- trace_simpl. rewrite Hinv, Hf. reflexivity.
      * proc_fields. split; [|split; [assumption|reflexivity]].
        apply (consistent_latched _ (S i)); proc_fields; try assumption.
        -- trace_simpl. rewrite Hinv, Hf. reflexivity.
        -- intros j s H. congruence.
    + proc_fields. split; [|split; [assumption|reflexivity]].
      apply (consistent_latched _ (S i)); proc_fields; try assumption.
      * trace_simpl. rewrite Hinv, Hf. reflexivity.
      * intros j s' H. congruence.
Qed.

Lemma cleanup_consistent (st : Proc) :
  consistent st -> consistent (cleanup pexit st).
Proof.
  intro Hst. unfold cleanup. destruct (isCleaning st) eqn:Hc; [exact Hst|].
  destruct Hst as [Hidle _]. destruct (Hidle Hc) as [Hinv Ha].
  apply run_handlers_consistent; proc_fields; try assumption; try reflexivity.
  - trace_simpl. rewrite Hinv. reflexivity.
  - lia.
Qed.

Lemma resume_consistent (st : Proc) :
  consistent st -> consistent (resume pexit st).
Proof.
  intro Hst. unfold resume. destruct (awaiting st) as [[i s]|] eqn:Ha; [|exact Hst].
  destruct Hst as [Hidle (k & Hinv & Hle & Hk)].
  specialize (Hk i s Ha). subst k.
  assert (Hc : isCleaning st = true).
  { destruct (isCleaning st) eqn:Hc; [reflexivity|].
    destruct (Hidle eq_refl) as [_ H]. congruence. }
  destruct s as [|e].
  - apply run_handlers_consistent; proc_fields; try assumption; reflexivity.
  - unfold catch_clause. destruct (get_prop e "message") as [m|e'].
    + apply run_handlers_consistent; proc_fields; try assumption; try reflexivity.
      trace_simpl. exact Hinv.
    + apply (consistent_latched _ (S i)); proc_fields; try assumption.
      * trace_simpl. exact Hinv.
      * intros j s H. discriminate.
Qed.

End QuietExit.

Lemma process_exit_consistent (code : Z) (st : Proc) :
  consistent st -> consistent (process_exit code st).
Proof.
  intro Hst. unfold process_exit, process_exit_with.
  destruct (exiting st) eqn:He; [exact Hst|].
  assert (Hl : consistent (exit_listener (set_exiting st))).
  { apply cleanup_consistent; [apply quiet_exit_while_exiting|exact Hst]. }
  destruct (exited (exit_listener (set_exiting st))); exact Hl.
Qed.

Lemma step_consistent (st : Proc) (ev : Event) :
  consistent st -> consistent (step st ev).
Proof.
  intro Hst. unfold step. destruct (exited st); [exact Hst|].
  destruct ev.
  - destruct Hst as [Hidle (k & Hinv & Hle & Hk)]. split; simpl.
    + exact Hidle.
    + exists k. rewrite length_app, firstn_app. simpl.
      replace (k - List.length (cleanupHandlers st))%nat with 0%nat by lia.
      simpl. rewrite app_nil_r. repeat split; [exact Hinv|lia|exact Hk].
  - apply cleanup_consistent; [apply quiet_process_exit|exact Hst].
  - apply cleanup_consistent; [apply quiet_process_exit|exact Hst].
  - apply cleanup_consistent; [apply quiet_process_exit|exact Hst].
  - unfold shutdownFromWeb. apply cleanup_consistent; [apply quiet_process_exit|].
    destruct Hst as [Hidle (k & Hinv & Hle & Hk)]. split; simpl.
    + rewrite invocations_app, app_nil_r. exact Hidle.
    + exists k. rewrite invocations_app, app_nil_r. auto.
  - apply process_exit_consistent. exact Hst.
  - apply resume_consistent; [apply quiet_process_exit|exact Hst].
Qed.

Lemma run_consistent (evs : list Event) : consistent (run evs).
Proof.
  unfold run.
  assert (G : forall st, consistent st -> consistent (fold_left step evs st)).
  { induction evs as [|ev evs IH]; intros st Hst; simpl; [exact Hst|].
    apply IH, step_consistent, Hst. }
  apply G. split; simpl.
  - auto.
  - exists 0%nat. repeat split; [lia|]. intros i s H. discriminate.
Qed.

(** *** Running a schedule *)

Lemma run_registered (hs : list Handler) :
  forall hs0,
    fold_left step (map Register hs) (registered hs0) = registered (hs0 ++ hs).
Proof.
  induction hs as [|h hs IH]; intro hs0; simpl.
  - rewrite app_nil_r. reflexivity.
  - change (step (registered hs0) (Register h)) with (registered (hs0 ++ [h])).
    rewrite IH, <- app_assoc. reflexivity.
Qed.

Lemma run_after_registering (hs : list Handler) (evs : list Event) :
  run (map Register hs ++ evs) = fold_left step evs (registered hs).
Proof.
  unfold run. rewrite fold_left_app.
  change constructor with (registered []). rewrite run_registered. reflexivity.
Qed.

Lemma exited_is_final (evs : list Event) :
  forall st code, exited st = Some code -> fold_left step evs st = st.
Proof.
  induction evs as [|ev evs IH]; intros st code H; simpl; [reflexivity|].
  assert (Hs : step st ev = st) by (unfold step; rewrite H; reflexivity).
  rewrite Hs. apply (IH _ code H).
Qed.

Lemma settle_when_idle (k : nat) (st : Proc) :
  awaiting st = None -> fold_left step (repeat Settle k) st = st.
Proof.
  intro Ha. induction k as [|k IH]; simpl; [reflexivity|].
  assert (Hs : step st Settle = st).
  { unfold step, resume. rewrite Ha. destruct (exited st); reflexivity. }
  rewrite Hs. exact IH.
Qed.

(** *** A process that has not exited is not exiting *)

Lemma run_handlers_alive (pexit : Z -> Proc -> Proc)
  (Hexits : forall code st, exists c, exited (pexit code st) = Some c) :
  forall rest i st,
    (exited st = None -> exiting st = false) ->
    exited (run_handlers pexit rest i st) = None ->
    exiting (run_handlers pexit rest i st) = false.
Proof.
  induction rest as [|h rest IH]; intros i st Hst; cbn [run_handlers].
  - intro H. destruct (Hexits 0 (observe (Console Removed) st)) as [c Hc]. congruence.
  - destruct (hbody h) as [e|s].
    + unfold catch_clause. destruct (get_prop e "message") as [m|e'].
      * apply IH. exact Hst.
      * exact Hst.
    + exact Hst.
Qed.

Lemma step_alive (st : Proc) (ev : Event) :
  (exited st = None -> exiting st = false) ->
  exited (step st ev) = None -> exiting (step st ev) = false.
Proof.
  intro Hst. unfold step. destruct (exited st) eqn:Hx; [intro H; congruence|].
  specialize (Hst eq_refl).
  assert (Hpe : forall code st0, exists c, exited (process_exit code st0) = Some c)
    by (intros; apply process_exit_exits).
  assert (Hcl : forall st0, exiting st0 = false ->
                            exited (cleanup process_exit st0) = None ->
                            exiting (cleanup process_exit st0) = false).
  { intros st0 H0. unfold cleanup. destruct (isCleaning st0); [intros _; exact H0|].
    apply run_handlers_alive; [exact Hpe|intros _; exact H0]. }
  destruct ev.
  - intros _. exact Hst.
  - apply Hcl, Hst.
  - apply Hcl, Hst.
  - apply Hcl, Hst.
  - unfold shutdownFromWeb. apply Hcl. exact Hst.
  - intro H. destruct (Hpe code st) as [c Hc]. congruence.
  - unfold resume. destruct (awaiting st) as [[i [|e]]|]; [| |intros _; exact Hst].
    + apply run_handlers_alive; [exact Hpe|intros _; exact Hst].
    + unfold catch_clause. destruct (get_prop e "message");
        [apply run_handlers_alive; [exact Hpe|intros _; exact Hst]|intros _; exact Hst].
Qed.

Lemma run_alive (evs : list Event) :
  exited (run evs) = None -> exiting (run evs) = false.
Proof.
  unfold run.
  assert (G : forall st, (exited st = None -> exiting st = false) ->
                         exited (fold_left step evs st) = None ->
                         exiting (fold_left step evs st) = false).
  { induction evs as [|ev evs IH]; intros st Hst; simpl; [exact Hst|].
    apply IH, step_alive, Hst. }
  apply G. reflexivity.
Qed.

(** C9: a handler has been invoked, or is being awaited, only in a process
    whose guard flag is set: `cleanup` sets the flag and only then enters
    its loop.  In such a process every further call of `cleanup` returns
    the state as it found it: a second signal, an uncaught exception or a
    disconnect changes nothing, the web request and an exit from elsewhere
    invoke no handler, and the 'exit' listener run by the final
    `process.exit(0)` does nothing, so the process leaves with code 0. *)
Theorem cleanup_reentry_returns_immediately (evs : list Event) :
  let st := run evs in
  (isCleaning st = false ->
     forall pexit,
       cleanup pexit st
       = run_handlers pexit (cleanupHandlers st) 0
           (observe (Console CleaningUp) (set_isCleaning st))) /\
  (invocations (trace st) <> [] \/ awaiting st <> None -> isCleaning st = true) /\
  (isCleaning st = true ->
     (forall pexit, cleanup pexit st = st) /\
     (forall s, step st (OnSignal s) = st) /\
     step st OnUncaughtException = st /\
     step st OnDisconnect = st /\
     invocations (trace (step st WebShutdown)) = invocations (trace st) /\
     (forall code,
        invocations (trace (step st (ProcessExit code))) = invocations (trace st)) /\
     exit_listener (set_exiting (observe (Console Removed) st))
     = set_exiting (observe (Console Removed) st) /\
     (exited st = None ->
      process_exit 0 (observe (Console Removed) st)
      = reallyExit 0 (set_exiting (observe (Console Removed) st)))).
Proof.
  intro st. split; [|split].
  - intros Hc pexit. unfold cleanup. rewrite Hc. reflexivity.
  - intro H. destruct (isCleaning st) eqn:Hc; [reflexivity|].
    destruct (run_consistent evs) as [Hidle _]. fold st in Hidle.
    destruct (Hidle Hc) as [Hi Ha]. destruct H; contradiction.
  - intro Hc.
    assert (Hstep : forall ev, (forall st0, step st0 ev = match exited st0 with
                                                          | Some _ => st0
                                                          | None => cleanup process_exit st0
                                                          end) ->
                               step st ev = st).
    { intros ev H. rewrite H. destruct (exited st); [reflexivity|].
      apply cleanup_latched, Hc. }
    split; [intro pexit; apply cleanup_latched, Hc|].
    split; [intro s; apply Hstep; reflexivity|].
    split; [apply Hstep; reflexivity|].
    split; [apply Hstep; reflexivity|].
    split.
    { unfold step. destruct (exited st); [reflexivity|].
      unfold shutdownFromWeb. rewrite cleanup_latched by exact Hc.
      proc_fields. trace_simpl. reflexivity. }
    split.
    { intro code. unfold step. destruct (exited st); [reflexivity|].
      destruct (quiet_process_exit code st Hc) as [Ht _]. rewrite Ht. reflexivity. }
    split.
    { apply exit_listener_latched. exact Hc. }
    intro Hx. apply process_exit_latched; proc_fields; try assumption.
    apply run_alive. exact Hx.
Qed.

Lemma cleanup_reentry_returns_immediately_witness :
  isCleaning (run (main_handlers ++ [OnSignal SIGINT])) = true /\
  step (run (main_handlers ++ [OnSignal SIGINT])) (OnSignal SIGTERM)
  = run (main_handlers ++ [OnSignal SIGINT]).
Proof.
  destruct (cleanup_reentry_returns_immediately (main_handlers ++ [OnSignal SIGINT]))
    as (_ & Hflag & Hlatched).
  assert (Hc : isCleaning (run (main_handlers ++ [OnSignal SIGINT])) = true).
  { apply Hflag. left. vm_compute. discriminate. }
  split; [exact Hc|].
  destruct (Hlatched Hc) as (_ & Hsignal & _).
  apply Hsignal.
Defined.

(** *** A pass that runs to its end *)

Lemma settles_needed_cons (h : Handler) (rest : list Handler) :
  settles_needed (h :: rest)
  = if suspends h then S (settles_needed rest) else settles_needed rest.
Proof. unfold settles_needed. simpl. destruct (suspends h); reflexivity. Qed.

Lemma pass_completes :
  forall rest i st,
    Forall (fun h => readable_failure h = true) rest ->
    isCleaning st = true ->
    exiting st = false ->
    exited st = None ->
    rest = skipn i (cleanupHandlers st) ->
    let st' := fold_left step (repeat Settle (settles_needed rest))
                 (run_handlers process_exit rest i st) in
    invocations (trace st') = (invocations (trace st) ++ rest)%list /\
    warnings (trace st') = (warnings (trace st) ++ expected_warnings rest)%list /\
    exited st' = Some 0.
Proof.
  induction rest as [|h rest IH]; intros i st Hall Hc He Hx Hrest; cbn zeta.
  - cbn [run_handlers settles_needed filter List.length repeat fold_left].
    rewrite process_exit_latched by (proc_fields; assumption).
    proc_fields. trace_simpl. cbn [expected_warnings]. rewrite ?app_nil_r.
    repeat split.
  - symmetry in Hrest. destruct (skipn_cons_inv _ _ _ _ Hrest) as (_ & Hs & _).
    apply Forall_cons_iff in Hall. destruct Hall as [Hh Hall'].
    rewrite settles_needed_cons.
    cbn [run_handlers expected_warnings].
    unfold readable_failure in Hh. unfold suspends. unfold failure in *.
    destruct (hbody h) as [e|[|e]].
    + assert (Hm : get_prop e "message" = Normal (message_of e))
        by (destruct e; try reflexivity; discriminate).
      unfold catch_clause. rewrite Hm.
      pose proof (IH (S i) (observe (Console (CleanupWarning (message_of e)))
                              (observe (Invoke h) st))) as P.
      cbn zeta in P. proc_fields.
      destruct P as (P1 & P2 & P3); try assumption; [symmetry; exact Hs|].
      rewrite P1, P2, P3. trace_simpl. rewrite <- !app_assoc. repeat split.
    + cbn [repeat fold_left].
      unfold step at 2 4 6. proc_fields. rewrite Hx.
      unfold resume. proc_fields. rewrite Hs.
      pose proof (IH (S i) (set_awaiting None
                              (set_awaiting (Some (i, Fulfilled))
                                 (observe (Invoke h) st)))) as P.
      cbn zeta in P. proc_fields.
      destruct P as (P1 & P2 & P3); try assumption; [symmetry; exact Hs|].
      rewrite P1, P2, P3. trace_simpl. rewrite <- !app_assoc. repeat split.
    + assert (Hm : get_prop e "message" = Normal (message_of e))
        by (destruct e; try reflexivity; discriminate).
      cbn [repeat fold_left].
      unfold step at 2 4 6. proc_fields. rewrite Hx.
      unfold resume. proc_fields. rewrite Hs.
      unfold catch_clause. rewrite Hm.
      pose proof (IH (S i) (observe (Console (CleanupWarning (message_of e)))
                              (set_awaiting None
                                 (set_awaiting (Some (i, Rejected e))
                                    (observe (Invoke h) st))))) as P.
      cbn zeta in P. proc_fields.
      destruct P as (P1 & P2 & P3); try assumption; [symmetry; exact Hs|].
      rewrite P1, P2, P3. trace_simpl. rewrite <- !app_assoc. repeat split.
Qed.

(** However the events fall, the handlers invoked so far are an initial
    stretch of the registered ones, in registration order: no handler is
    invoked out of turn and no registration is invoked twice. *)
Theorem invocations_follow_registration (evs : list Event) :
  exists k, invocations (trace (run evs)) = firstn k (cleanupHandlers (run evs)).
Proof.
  destruct (run_consistent evs) as [_ (k & Hinv & _)]. eauto.
Qed.

(** A pass started by a signal, an uncaught exception, a disconnect or the
    web request, over handlers that succeed or fail with a value whose
    message can be read, once every awaited handler has settled: every
    handler was invoked once, in registration order, one warning was logged
    per failed handler, and the process left with code 0. *)
Theorem pass_runs_every_handler_once
  (hs : list Handler) (trigger : Event) :
  Forall (fun h => readable_failure h = true) hs ->
  starts_cleanup trigger = true ->
  let st := run (map Register hs ++ trigger :: repeat Settle (settles_needed hs)) in
  invocations (trace st) = hs /\
  warnings (trace st) = expected_warnings hs /\
  exited st = Some 0.
Proof.
  intros Hall Htrig st. subst st.
  rewrite run_after_registering. cbn [fold_left].
  assert (Hpass : forall st0,
             cleanupHandlers st0 = hs -> isCleaning st0 = false ->
             exiting st0 = false -> exited st0 = None ->
             invocations (trace st0) = [] -> warnings (trace st0) = [] ->
             let st' := fold_left step (repeat Settle (settles_needed hs))
                          (cleanup process_exit st0) in
             invocations (trace st') = hs /\
             warnings (trace st') = expected_warnings hs /\
             exited st' = Some 0).
  { intros st0 Hh Hc He Hx Hi Hw. unfold cleanup. rewrite Hc. proc_fields.
    rewrite Hh.
    pose proof (pass_completes hs 0
                  (observe (Console CleaningUp) (set_isCleaning st0)) Hall) as P.
    cbn zeta in P. proc_fields.
    rewrite Hh in P. destruct P as (P1 & P2 & P3); try assumption; try reflexivity.
    revert P1 P2. trace_simpl. rewrite Hi, Hw. simpl. auto. }
  destruct trigger; try discriminate; unfold step at 2 4 6; cbn [exited registered];
    apply Hpass; reflexivity.
Qed.

Lemma pass_runs_every_handler_once_witness :
  invocations (trace (run (main_handlers
                           ++ OnSignal SIGTERM :: repeat Settle 3)))
  = [proxy_stop; dashboard_stop; kill_live_server] /\
  exited (run (main_handlers ++ OnSignal SIGTERM :: repeat Settle 3)) = Some 0.
Proof.
  destruct (pass_runs_every_handler_once
              [proxy_stop; dashboard_stop; kill_live_server] (OnSignal SIGTERM))
    as (Hi & _ & Hx).
  - repeat constructor.
  - reflexivity.
  - split; [exact Hi|exact Hx].
Defined.

(** C1 fails on the code.  When the first call of `cleanup` comes from the
    'exit' listener, the pass stops at its first `await` and the process is
    gone: with a first handler that returns, only that handler is invoked,
    and the handlers registered after it are never invoked.  For the three
    handlers of `main`, an exit invokes `proxy.stop()` only, where a signal
    followed by three settlements invokes all three. *)
Theorem exit_event_abandons_remaining_handlers
  (n : nat) (s : Settlement) (rest : list Handler) (code : Z) (later : list Event) :
  let first := {| hid := n; hbody := Returns s |} in
  let st := run (map Register (first :: rest) ++ ProcessExit code :: later) in
  invocations (trace st) = [first] /\
  exited st = Some code /\
  invocations (trace (run (main_handlers ++ [ProcessExit 1]))) = [proxy_stop] /\
  invocations (trace (run (main_handlers ++ [OnSignal SIGINT; Settle; Settle; Settle])))
  = [proxy_stop; dashboard_stop; kill_live_server].
Proof.
  intros first st. subst st.
  rewrite run_after_registering. cbn [fold_left].
  assert (H : step (registered (first :: rest)) (ProcessExit code)
              = reallyExit code
                  (set_awaiting (Some (0%nat, s))
                     (observe (Invoke first)
                        (observe (Console CleaningUp)
                           (set_isCleaning (set_exiting (registered (first :: rest)))))))).
  { reflexivity. }
  rewrite H.
  rewrite (exited_is_final later _ code) by reflexivity.
  repeat split.
Qed.

(** C7 fails on the code.  A handler that fails with `undefined` (a promise
    rejected without a reason) or throws `null` makes the `catch` clause
    itself throw when it reads `error.message`: no warning is logged, no
    later handler is invoked, and the process does not exit, however long
    one waits.  And in a pass started from the 'exit' listener a handler
    whose promise rejects, even with an Error, is not logged either, no later
    handler is invoked, and the exit code is the one the process was leaving
    with. *)
Theorem failed_handler_can_stop_cleanup
  (n : nat) (rest : list Handler) (k : nat) (code : Z) :
  let bad := rejects_with n JUndefined in
  let st := run (map Register (bad :: rest) ++ OnSignal SIGINT :: repeat Settle (S k)) in
  let bad' := throws n JNull in
  let st' := run (map Register (bad' :: rest) ++ OnSignal SIGINT :: repeat Settle k) in
  let boom := rejects_with n (ErrorObj "boom") in
  let st'' := run (map Register (boom :: rest) ++ ProcessExit code :: repeat Settle k) in
  (invocations (trace st) = [bad] /\ warnings (trace st) = [] /\ exited st = None) /\
  (invocations (trace st') = [bad'] /\ warnings (trace st') = [] /\ exited st' = None) /\
  (invocations (trace st'') = [boom] /\ warnings (trace st'') = [] /\
   exited st'' = Some code).
Proof.
  intros bad st bad' st' boom st''. subst st st' st''.
  rewrite !run_after_registering.
  split; [|split].
  - cbn [fold_left repeat].
    assert (H : step (step (registered (bad :: rest)) (OnSignal SIGINT)) Settle
                = observe (UnhandledRejection
                             (TypeError "Cannot read properties of nullish value: message"))
                    (set_awaiting None
                       (set_awaiting (Some (0%nat, Rejected JUndefined))
                          (observe (Invoke bad)
                             (observe (Console CleaningUp)
                                (set_isCleaning (registered (bad :: rest)))))))).
    { reflexivity. }
    rewrite H, settle_when_idle by reflexivity.
    repeat split.
  - cbn [fold_left].
    assert (H : step (registered (bad' :: rest)) (OnSignal SIGINT)
                = observe (UnhandledRejection
                             (TypeError "Cannot read properties of nullish value: message"))
                    (observe (Invoke bad')
                       (observe (Console CleaningUp)
                          (set_isCleaning (registered (bad' :: rest)))))).
    { reflexivity. }
    rewrite H, settle_when_idle by reflexivity.
    repeat split.
  - cbn [fold_left].
    assert (H : step (registered (boom :: rest)) (ProcessExit code)
                = reallyExit code
                    (set_awaiting (Some (0%nat, Rejected (ErrorObj "boom")))
                       (observe (Invoke boom)
                          (observe (Console CleaningUp)
                             (set_isCleaning (set_exiting (registered (boom :: rest)))))))).
    { reflexivity. }
    rewrite H, (exited_is_final _ _ code) by reflexivity.
    repeat split.
Qed.

(* ================================================================== *)
(** * Further properties of the resolver *)
(* ================================================================== *)

Lemma mapM_data_of (items : list JsVal) :
  mapM (fun ans => get_prop ans "data") items
  = if existsb nullish items
    then Throw (TypeError "Cannot read properties of nullish value: data")
    else Normal (map data_of items).
Proof.
  induction items as [|v items IH]; simpl; [reflexivity|].
  rewrite IH.
  destruct v; simpl; try reflexivity;
    destruct (existsb nullish items); reflexivity.
Qed.

Ltac throws_iff :=
  split;
  [ first [ intros _; reflexivity | intros [? H]; discriminate H ]
  | first [ discriminate | intros _; eexists; reflexivity ] ].

Lemma resolve_try_throws_iff (o : AxiosOutcome) :
  (exists e, resolve_try o = Throw e) <-> doh_unreadable o = true.
Proof.
  destruct o as [e|data]; [throws_iff|].
  unfold resolve_try. simpl.
  destruct data as [| |b|n|s|items|fields]; simpl; try throws_iff.
  destruct (lookup_field "Answer" fields) as [| |b|n|s|items|fs]; simpl;
    try throws_iff.
  - destruct b; simpl; throws_iff.
  - destruct (n =? 0); simpl; throws_iff.
  - destruct (String.eqb s ""); simpl; throws_iff.
  - rewrite mapM_data_of. destruct (existsb nullish items); simpl; throws_iff.
Qed.

(** The conventional lookup is made exactly for the DoH outcomes that make
    the `try` block throw: a rejected request, a `null` or `undefined` body,
    an `Answer` that is truthy but no array, an `Answer` array holding
    `null` or `undefined`.  After any of them the result is what the
    conventional lookup gave, everything the DoH answer held being dropped;
    after every other outcome only the DoH query is made. *)
Theorem resolve_falls_back_exactly_when_doh_unreadable
  (net : Network) (hostname : string) :
  resolve net hostname
  = if doh_unreadable (axios_get net hostname)
    then ([DohQuery hostname; DnsResolve4 hostname],
          Normal (resolve_fallback (dns_resolve4 net hostname)))
    else ([DohQuery hostname], snd (resolve net hostname)).
Proof.
  pose proof (resolve_try_throws_iff (axios_get net hostname)) as H.
  unfold resolve.
  destruct (resolve_try (axios_get net hostname)) as [[r|]|e];
    destruct (doh_unreadable (axios_get net hostname)); simpl; try reflexivity.
  - destruct H as [_ H]. destruct (H eq_refl) as [e He]. discriminate.
  - destruct H as [_ H]. destruct (H eq_refl) as [e He]. discriminate.
  - destruct H as [H _]. assert (false = true) by eauto. discriminate.
Qed.

(** An `Answer` array without `null` and `undefined` gives one entry per
    element, at the element's position: its `data`, or `undefined` when the
    element has no `data` member or is no object.  Nothing is filtered, so
    the result is as long as `Answer` and may hold entries that are no
    addresses. *)
Theorem resolve_one_entry_per_answer
  (net : Network) (hostname : string) (fields : list (string * JsVal))
  (items : list JsVal) :
  axios_get net hostname = AxiosResponse (JObj fields) ->
  lookup_field "Answer" fields = JArr items ->
  existsb nullish items = false ->
  resolve net hostname = ([DohQuery hostname], Normal (map data_of items)) /\
  forall r, snd (resolve net hostname) = Normal r -> List.length r = List.length items.
Proof.
  intros Hget Hans Hnn.
  assert (H : resolve net hostname = ([DohQuery hostname], Normal (map data_of items))).
  { unfold resolve, resolve_try. rewrite Hget. simpl. rewrite Hans. simpl.
    rewrite mapM_data_of, Hnn. reflexivity. }
  split; [exact H|].
  intros r Hr. rewrite H in Hr. simpl in Hr. injection Hr as <-.
  apply length_map.
Qed.

Lemma resolve_one_entry_per_answer_witness :
  resolve net_sparse_answer "example.local"
  = ([DohQuery "example.local"], Normal [JUndefined; JUndefined; JStr "10.0.0.7"]).
Proof.
  exact (proj1 (resolve_one_entry_per_answer net_sparse_answer "example.local"
                  [("Answer", JArr sparse_items)] sparse_items
                  eq_refl eq_refl eq_refl)).
Defined.

(* ================================================================== *)
(** * Further properties of the proxy *)
(* ================================================================== *)

(** *** Targets of CONNECT requests *)

Lemma split_colon_free (seg : string) :
  colon_free seg = true -> split_colon seg = [seg].
Proof.
  induction seg as [|c seg IH]; simpl; [reflexivity|].
  destruct (Ascii.eqb c ":"); simpl; [discriminate|].
  intro H. rewrite (IH H). reflexivity.
Qed.

Lemma split_colon_cons (seg rest : string) :
  colon_free seg = true ->
  split_colon (seg ++ ":" ++ rest) = seg :: split_colon rest.
Proof.
  induction seg as [|c seg IH]; simpl; [reflexivity|].
  destruct (Ascii.eqb c ":"); simpl; [discriminate|].
  intro H. specialize (IH H). simpl in IH. rewrite IH. reflexivity.
Qed.

(** `split(':')` and joining with colons undo each other: the segments of a
    target put back together give the target, and a non-empty list of
    colon-free segments joined and split again gives the same list. *)
Theorem split_colon_join_round_trip :
  (forall s, join_colon (split_colon s) = s) /\
  (forall segs,
     segs <> [] ->
     Forall (fun seg => colon_free seg = true) segs ->
     split_colon (join_colon segs) = segs).
Proof.
  split; [exact join_split_colon|].
  induction segs as [|seg segs IH]; intros Hne Hall; [congruence|].
  inversion Hall as [|? ? Hseg Hsegs]; subst.
  destruct segs as [|seg' segs].
  - simpl. apply split_colon_free, Hseg.
  - change (join_colon (seg :: seg' :: segs))
      with (seg ++ ":" ++ join_colon (seg' :: segs)).
    rewrite split_colon_cons by exact Hseg.
    rewrite IH; [reflexivity|discriminate|exact Hsegs].
Qed.

Lemma split_colon_join_round_trip_witness :
  split_colon (join_colon ["example.local"; "8443"]) = ["example.local"; "8443"].
Proof.
  apply (proj2 split_colon_join_round_trip).
  - discriminate.
  - repeat constructor.
Defined.

(** A CONNECT target `host:port` with a colon-free host and a non-empty
    colon-free port: the handler looks up exactly `host` and, the host
    resolved and the port accepted, dials the first address on `port` (the
    string as sent) right after the lookups.  A colon-free target without
    port is looked up whole and dialled on 443. *)
Theorem connect_host_port_is_looked_up_and_dialled
  (rt : Runtime) (clientReq : IncomingMessage) (head : string)
  (host port : string) (lookups : list Lookup) (first : JsVal) (others : list JsVal) :
  colon_free host = true ->
  colon_free port = true ->
  resolve (network rt) host = (lookups, Normal (first :: others)) ->
  (req_url clientReq = host ++ ":" ++ port ->
   port <> "" ->
   legalPort rt (PortStr port) = true ->
   immediate (handleHttps rt clientReq head)
   = (map Resolver lookups ++ [NetConnect (PortStr port) first])%list) /\
  (req_url clientReq = host ->
   legalPort rt (PortNum 443) = true ->
   immediate (handleHttps rt clientReq head)
   = (map Resolver lookups ++ [NetConnect (PortNum 443) first])%list).
Proof.
  intros Hhost Hport Hr. split.
  - intros Hurl Hne Hlegal.
    assert (Hsplit : split_colon (req_url clientReq) = [host; port]).
    { rewrite Hurl, split_colon_cons, split_colon_free by assumption. reflexivity. }
    assert (Hh : connect_hostname (req_url clientReq) = host)
      by (unfold connect_hostname; rewrite Hsplit; reflexivity).
    assert (Hp : opt_port_or (connect_port (req_url clientReq)) 443 = PortStr port).
    { unfold connect_port. rewrite Hsplit. simpl. unfold port_or. simpl.
      destruct (String.eqb port "") eqn:E; [|reflexivity].
      apply String.eqb_eq in E. contradiction. }
    rewrite <- Hh in Hr.
    rewrite (handleHttps_resolved _ _ _ _ _ _ Hr). cbv zeta.
    rewrite Hp, Hlegal. reflexivity.
  - intros Hurl Hlegal.
    assert (Hsplit : split_colon (req_url clientReq) = [host])
      by (rewrite Hurl; apply split_colon_free, Hhost).
    assert (Hh : connect_hostname (req_url clientReq) = host)
      by (unfold connect_hostname; rewrite Hsplit; reflexivity).
    assert (Hp : opt_port_or (connect_port (req_url clientReq)) 443 = PortNum 443)
      by (unfold connect_port; rewrite Hsplit; reflexivity).
    rewrite <- Hh in Hr.
    rewrite (handleHttps_resolved _ _ _ _ _ _ Hr). cbv zeta.
    rewrite Hp, Hlegal. reflexivity.
Qed.

Lemma connect_host_port_is_looked_up_and_dialled_witness :
  immediate (handleHttps (rt_of net_doh_down) connect_443 "")
  = [Resolver (DohQuery "example.local"); Resolver (DnsResolve4 "example.local");
     NetConnect (PortStr "443") (JStr "10.0.0.7")].
Proof.
  refine (proj1 (connect_host_port_is_looked_up_and_dialled
                   (rt_of net_doh_down) connect_443 "" "example.local" "443"
                   [DohQuery "example.local"; DnsResolve4 "example.local"]
                   (JStr "10.0.0.7") [] eq_refl eq_refl eq_refl) eq_refl _ eq_refl).
  discriminate.
Defined.

(** *** What the client is told *)

Lemma client_response_app (from_target : string) (l1 l2 : list Effect) :
  client_response from_target (l1 ++ l2)
  = fold_left (drive_response from_target) l2 (client_response from_target l1).
Proof. unfold client_response. apply fold_left_app. Qed.

Lemma client_response_lookups (from_target : string) (lookups : list Lookup)
  (tail : list Effect) :
  client_response from_target (map Resolver lookups ++ tail)
  = client_response from_target tail.
Proof.
  rewrite client_response_app.
  assert (H : client_response from_target (map Resolver lookups) = fresh_response).
  { unfold client_response. induction lookups as [|l ls IH]; simpl; [reflexivity|].
    exact IH. }
  rewrite H. reflexivity.
Qed.

Lemma finished_stays (from_target : string) (effects : list Effect) :
  forall r, finished r = true -> fold_left (drive_response from_target) effects r = r.
Proof.
  induction effects as [|e effects IH]; intros r H; simpl; [reflexivity|].
  unfold drive_response at 2. rewrite H. apply IH, H.
Qed.

Lemma is_dial_lookups (lookups : list Lookup) (tail : list Effect) :
  existsb is_dial (map Resolver lookups ++ tail) = existsb is_dial tail.
Proof. induction lookups as [|l ls IH]; simpl; [reflexivity|exact IH]. Qed.

Lemma bytes_to_target_lookups (clientReq : IncomingMessage) (lookups : list Lookup)
  (tail : list Effect) :
  bytes_to_target clientReq (map Resolver lookups ++ tail)
  = bytes_to_target clientReq tail.
Proof. induction lookups as [|l ls IH]; simpl; [reflexivity|exact IH]. Qed.

Lemma bytes_to_target_app (clientReq : IncomingMessage) (l1 l2 : list Effect) :
  bytes_to_target clientReq (l1 ++ l2)
  = bytes_to_target clientReq l1 ++ bytes_to_target clientReq l2.
Proof.
  assert (Hassoc : forall a b c : string, (a ++ b) ++ c = a ++ b ++ c).
  { induction a as [|x a IH]; intros b c; simpl; [reflexivity|]. now rewrite IH. }
  induction l1 as [|e l1 IH]; simpl; [reflexivity|].
  destruct e as [| | | |[|] data| | | |]; simpl; rewrite IH; try reflexivity;
    rewrite Hassoc; reflexivity.
Qed.

(** What a connection has done when its upstream socket never connected:
    the handler's own effects, then one run of the error listeners per
    error event. *)
Lemma performed_unconnected (evs : list SocketEvent) :
  forall c,
    ~ In TargetConnected evs ->
    performed (fold_left deliver evs c)
    = (performed c
       ++ flat_map (fun ev => match ev with
                              | TargetConnected => []
                              | TargetError => on_target_error (listeners c)
                              | ClientError => on_client_error (listeners c)
                              end) evs)%list.
Proof.
  induction evs as [|ev evs IH]; intros c Hnot; simpl.
  - rewrite app_nil_r. reflexivity.
  - rewrite IH by (intro H; apply Hnot; now right).
    rewrite listeners_deliver.
    destruct ev; simpl.
    + exfalso. apply Hnot. now left.
    + rewrite <- app_assoc. reflexivity.
    + rewrite <- app_assoc. reflexivity.
Qed.

(** If the dial of a plain-HTTP request fails (the upstream socket reports an
    error and never connects), the client is answered 502 with the body
    `Connection Failed`, the response is ended, and no byte of the request
    has reached the upstream. *)
Theorem http_dial_failure_answers_502
  (rt : Runtime) (clientReq : IncomingMessage) (targetUrl : URLRecord)
  (lookups : list Lookup) (first : JsVal) (others : list JsVal)
  (evs : list SocketEvent) (from_target : string) :
  parseURL rt (req_url clientReq) (base_url (req_host clientReq)) = Some targetUrl ->
  resolve (network rt) (url_hostname targetUrl) = (lookups, Normal (first :: others)) ->
  legalPort rt (port_or (url_port targetUrl) 80) = true ->
  ~ In TargetConnected evs ->
  In TargetError evs ->
  let effects := performed (run_conn (handleRequest rt clientReq) evs) in
  response_seen (client_response from_target effects)
  = Some {| status := 502; body := "Connection Failed" |} /\
  finished (client_response from_target effects) = true /\
  bytes_to_target clientReq effects = "".
Proof.
  intros Hu Hr Hp Hnot Herr effects. subst effects.
  rewrite (handleRequest_resolved _ _ _ _ _ _ Hu Hr). cbv zeta. rewrite Hp.
  unfold run_conn. rewrite performed_unconnected by exact Hnot.
  cbn [accept listeners performed immediate on_target_error on_client_error].
  rewrite <- app_assoc.
  set (react := flat_map _ evs).
  assert (Hreact : (exists tail, react = ResWriteHead 502 :: ResEnd "Connection Failed" :: tail)
                   /\ bytes_to_target clientReq react = "").
  { subst react. clear -Hnot Herr.
    induction evs as [|ev evs IH]; [destruct Herr|].
    destruct ev; simpl.
    - exfalso. apply Hnot. now left.
    - split; [eauto|].
      clear. induction evs as [|ev evs IH]; simpl; [reflexivity|].
      destruct ev; simpl; exact IH.
    - destruct Herr as [H|H]; [discriminate|].
      apply IH; [intro H'; apply Hnot; now right|exact H]. }
  destruct Hreact as [[tail Htail] Hbytes].
  rewrite client_response_lookups, bytes_to_target_lookups.
  cbn [app]. rewrite Htail.
  change (client_response from_target
            (NetConnect (port_or (url_port targetUrl) 80) first
             :: ResWriteHead 502 :: ResEnd "Connection Failed" :: tail))
    with (fold_left (drive_response from_target) tail
            {| headSent := Some 502; bodySent := "Connection Failed"; finished := true |}).
  rewrite finished_stays by reflexivity.
  repeat split.
  rewrite <- Htail. exact Hbytes.
Qed.

Lemma http_dial_failure_answers_502_witness :
  response_seen
    (client_response ""
       (performed (run_conn (handleRequest (rt_of net_doh_down) get_root)
                     [TargetError])))
  = Some {| status := 502; body := "Connection Failed" |}.
Proof.
  refine (proj1 (http_dial_failure_answers_502 (rt_of net_doh_down) get_root
                   {| url_hostname := "example.local"; url_port := "" |}
                   [DohQuery "example.local"; DnsResolve4 "example.local"]
                   (JStr "10.0.0.7") [] [TargetError] ""
                   eq_refl eq_refl eq_refl _ _)).
  - intros [H|[]]. discriminate.
  - now left.
Defined.

(** If the dial of a CONNECT request fails, the client socket is ended
    without a single byte having been written to it, and nothing was sent
    to the upstream. *)
Theorem connect_dial_failure_ends_client_unanswered
  (rt : Runtime) (clientReq : IncomingMessage) (head : string)
  (lookups : list Lookup) (first : JsVal) (others : list JsVal)
  (evs : list SocketEvent) :
  resolve (network rt) (connect_hostname (req_url clientReq))
  = (lookups, Normal (first :: others)) ->
  legalPort rt (opt_port_or (connect_port (req_url clientReq)) 443) = true ->
  ~ In TargetConnected evs ->
  In TargetError evs ->
  let effects := performed (run_conn (handleHttps rt clientReq head) evs) in
  existsb is_client_write effects = false /\
  In (SocketEnd Client) effects /\
  bytes_to_target clientReq effects = "".
Proof.
  intros Hr Hp Hnot Herr effects. subst effects.
  rewrite (handleHttps_resolved _ _ _ _ _ _ Hr). cbv zeta. rewrite Hp.
  unfold run_conn. rewrite performed_unconnected by exact Hnot.
  cbn [accept listeners performed immediate on_target_error on_client_error].
  rewrite <- app_assoc.
  set (react := flat_map _ evs).
  assert (Hreact : existsb is_client_write react = false /\
                   In (SocketEnd Client) react /\
                   bytes_to_target clientReq react = "").
  { subst react. clear -Hnot Herr.
    induction evs as [|ev evs IH]; [destruct Herr|].
    assert (Hquiet : forall l : list SocketEvent,
               existsb is_client_write
                 (flat_map (fun ev => match ev with
                                      | TargetConnected => []
                                      | TargetError => [SocketEnd Client]
                                      | ClientError => [SocketEnd Target]
                                      end) l) = false /\
               bytes_to_target clientReq
                 (flat_map (fun ev => match ev with
                                      | TargetConnected => []
                                      | TargetError => [SocketEnd Client]
                                      | ClientError => [SocketEnd Target]
                                      end) l) = "").
    { induction l as [|x l IHl]; simpl; [split; reflexivity|].
      destruct x; simpl; exact IHl. }
    destruct ev; simpl.
    - exfalso. apply Hnot. now left.
    - destruct (Hquiet evs) as [Hw Hb]. repeat split; [exact Hw|now left|exact Hb].
    - destruct Herr as [H|H]; [discriminate|].
      destruct IH as (Hw & Hin & Hb); [intro H'; apply Hnot; now right|exact H|].
      repeat split; [exact Hw|now right|exact Hb]. }
  destruct Hreact as (Hw & Hin & Hb).
  rewrite no_client_write_in_lookups, bytes_to_target_lookups.
  cbn [app existsb is_client_write orb bytes_to_target].
  repeat split; [exact Hw| |exact Hb].
  apply in_or_app. right. right. exact Hin.
Qed.

Lemma connect_dial_failure_ends_client_unanswered_witness :
  In (SocketEnd Client)
     (performed (run_conn (handleHttps (rt_of net_doh_down) connect_443 "hello")
                   [ClientError; TargetError])).
Proof.
  refine (proj1 (proj2 (connect_dial_failure_ends_client_unanswered
                          (rt_of net_doh_down) connect_443 "hello"
                          [DohQuery "example.local"; DnsResolve4 "example.local"]
                          (JStr "10.0.0.7") [] [ClientError; TargetError]
                          eq_refl eq_refl _ _))).
  - intros [H|[H|[]]]; discriminate.
  - right. now left.
Defined.

(** No request is left hanging by the handlers themselves.  When the
    plain-HTTP handler returns it has either issued a dial, with nothing
    sent to the client yet, or ended the response with status 500 or 502 and
    issued no dial.  When the CONNECT handler returns it has either issued a
    dial or ended the client socket, never both, and has written nothing to
    the client. *)
Theorem every_request_is_dialled_or_answered
  (rt : Runtime) (clientReq : IncomingMessage) (head : string) :
  (let now := immediate (handleRequest rt clientReq) in
   let r := client_response "" now in
   if existsb is_dial now
   then headSent r = None /\ finished r = false
   else finished r = true /\ (headSent r = Some 500 \/ headSent r = Some 502)) /\
  (let now := immediate (handleHttps rt clientReq head) in
   existsb is_client_write now = false /\
   if existsb is_dial now
   then ~ In (SocketEnd Client) now
   else In (SocketEnd Client) now).
Proof.
  split.
  - unfold handleRequest.
    destruct (parseURL rt (req_url clientReq) (base_url (req_host clientReq)))
      as [targetUrl|]; [|simpl; auto].
    destruct (resolve (network rt) (url_hostname targetUrl)) as [lookups result].
    destruct result as [[|first others]|e];
      try destruct (legalPort rt (port_or (url_port targetUrl) 80));
      cbn [immediate done]; cbv zeta;
      rewrite is_dial_lookups, client_response_lookups; simpl; auto.
  - unfold handleHttps.
    destruct (resolve (network rt) (connect_hostname (req_url clientReq)))
      as [lookups result].
    assert (Hend : forall tail,
               In (SocketEnd Client) (map Resolver lookups ++ tail)
               <-> In (SocketEnd Client) tail).
    { intro tail. induction lookups as [|l ls IH]; simpl; [tauto|].
      rewrite IH. split; [intros [H|H]; [discriminate|exact H]|auto]. }
    destruct result as [[|first others]|e];
      try destruct (legalPort rt (opt_port_or (connect_port (req_url clientReq)) 443));
      cbn [immediate done]; cbv zeta;
      rewrite is_dial_lookups, no_client_write_in_lookups; simpl;
      (split; [reflexivity|]);
      try (apply Hend; now left).
    intro H. apply (proj1 (Hend _)) in H. simpl in H.
    destruct H as [H|H]; [discriminate|exact H].
Qed.


(* ================================================================== *)
(** * Further properties of the cleanup manager *)
(* ================================================================== *)

(** While the promise of the first handler has not settled, shutdown does
    not advance: whatever signals, uncaught exceptions, disconnects and web
    shutdown requests follow the one that started the pass, no other handler
    is invoked and the process does not exit. *)
Theorem pending_handler_blocks_shutdown
  (n : nat) (s : Settlement) (rest : list Handler) (trigger : Event)
  (more : list Event) :
  starts_cleanup trigger = true ->
  Forall (fun ev => starts_cleanup ev = true) more ->
  let first := {| hid := n; hbody := Returns s |} in
  let st := run (map Register (first :: rest) ++ trigger :: more) in
  invocations (trace st) = [first] /\
  awaiting st = Some (0%nat, s) /\
  exited st = None.
Proof.
  intros Htrig Hmore first st. subst st.
  rewrite run_after_registering. cbn [fold_left].
  set (blocked := fun st : Proc =>
         isCleaning st = true /\ invocations (trace st) = [first] /\
         awaiting st = Some (0%nat, s) /\ exited st = None).
  assert (Hstart : blocked (step (registered (first :: rest)) trigger)).
  { destruct trigger; try discriminate; repeat split. }
  assert (Hkeep : forall ev st, starts_cleanup ev = true -> blocked st ->
                                blocked (step st ev)).
  { intros ev st Hev (Hc & Hi & Ha & Hx). unfold step. rewrite Hx.
    destruct ev; try discriminate;
      unfold shutdownFromWeb; rewrite cleanup_latched by exact Hc;
      repeat split; proc_fields; trace_simpl; assumption. }
  assert (Hall : forall st, blocked st -> blocked (fold_left step more st)).
  { induction Hmore as [|ev more Hev Hmore IH]; intros st Hst; simpl; [exact Hst|].
    apply IH, Hkeep; assumption. }
  destruct (Hall _ Hstart) as (_ & Hi & Ha & Hx). auto.
Qed.

Lemma pending_handler_blocks_shutdown_witness :
  invocations (trace (run (main_handlers
                           ++ [OnSignal SIGINT; OnSignal SIGINT; WebShutdown;
                               OnSignal SIGTERM])))
  = [proxy_stop] /\
  exited (run (main_handlers
               ++ [OnSignal SIGINT; OnSignal SIGINT; WebShutdown; OnSignal SIGTERM]))
  = None.
Proof.
  destruct (pending_handler_blocks_shutdown 0 Fulfilled
              [dashboard_stop; kill_live_server] (OnSignal SIGINT)
              [OnSignal SIGINT; WebShutdown; OnSignal SIGTERM] eq_refl)
    as (Hi & _ & Hx).
  - repeat constructor.
  - split; [exact Hi|exact Hx].
Defined.

(** A handler registered while a pass is suspended at the first handler is
    still served: once the awaited handlers have settled, the handlers
    registered before the pass and the late one have each been invoked once,
    in registration order, and the process has left with code 0. *)
Theorem late_registration_is_served
  (n : nat) (s : Settlement) (rest : list Handler) (late : Handler)
  (trigger : Event) :
  let first := {| hid := n; hbody := Returns s |} in
  let hs := (first :: rest ++ [late])%list in
  Forall (fun h => readable_failure h = true) hs ->
  starts_cleanup trigger = true ->
  let st := run (map Register (first :: rest)
                 ++ trigger :: Register late :: repeat Settle (settles_needed hs)) in
  invocations (trace st) = hs /\
  warnings (trace st) = expected_warnings hs /\
  exited st = Some 0.
Proof.
  intros first hs Hall Htrig st. subst st hs.
  rewrite run_after_registering. cbn [fold_left].
  apply Forall_cons_iff in Hall. destruct Hall as [Hfirst Hrest].
  rewrite settles_needed_cons. change (suspends first) with true.
  cbn [repeat fold_left].
  assert (Hstate : exists t,
             invocations t = [] /\ warnings t = [] /\
             step (step (registered (first :: rest)) trigger) (Register late)
             = {| cleanupHandlers := (first :: rest ++ [late])%list;
                  isCleaning := true; awaiting := Some (0%nat, s);
                  exiting := false; exited := None;
                  trace := (t ++ [Console CleaningUp; Invoke first])%list |}).
  { destruct trigger; try discriminate.
    - exists []. repeat split.
    - exists []. repeat split.
    - exists []. repeat split.
    - exists [Console ShutdownRequested]. repeat split. }
  destruct Hstate as (t & Hti & Htw & Hstate). rewrite Hstate.
  unfold step at 2 4 6. cbn [exited].
  unfold resume. cbn [awaiting cleanupHandlers set_awaiting skipn isCleaning
                      exiting exited trace].
  unfold readable_failure, failure in Hfirst.
  cbn [expected_warnings]. unfold failure at 1.
  subst first. cbn [hbody] in *.
  unfold set_awaiting. cbn [cleanupHandlers isCleaning awaiting exiting exited trace].
  destruct s as [|e].
  - pose proof (pass_completes (rest ++ [late]) 1
                  {| cleanupHandlers :=
                       ({| hid := n; hbody := Returns Fulfilled |} :: rest ++ [late])%list;
                     isCleaning := true; awaiting := None;
                     exiting := false; exited := None;
                     trace := (t ++ [Console CleaningUp;
                                     Invoke {| hid := n; hbody := Returns Fulfilled |}])%list |}
                  Hrest eq_refl eq_refl eq_refl eq_refl) as P.
    cbn zeta in P. destruct P as (P1 & P2 & P3).
    rewrite P1, P2, P3. cbn [trace]. trace_simpl.
    rewrite Hti, Htw. repeat split.
  - assert (Hm : get_prop e "message" = Normal (message_of e))
      by (destruct e; try reflexivity; discriminate).
    unfold catch_clause. rewrite Hm.
    pose proof (pass_completes (rest ++ [late]) 1
                  (observe (Console (CleanupWarning (message_of e)))
                     {| cleanupHandlers :=
                          ({| hid := n; hbody := Returns (Rejected e) |}
                             :: rest ++ [late])%list;
                        isCleaning := true; awaiting := None;
                        exiting := false; exited := None;
                        trace := (t ++ [Console CleaningUp;
                                        Invoke {| hid := n;
                                                  hbody := Returns (Rejected e) |}])%list |})
                  Hrest eq_refl eq_refl eq_refl eq_refl) as P.
    cbn zeta in P. destruct P as (P1 & P2 & P3).
    rewrite P1, P2, P3. proc_fields. trace_simpl.
    rewrite Hti, Htw. repeat split.
Qed.

Lemma late_registration_is_served_witness :
  invocations (trace (run (map Register [proxy_stop; dashboard_stop]
                           ++ OnSignal SIGINT :: Register kill_live_server
                              :: repeat Settle 3)))
  = [proxy_stop; dashboard_stop; kill_live_server].
Proof.
  destruct (late_registration_is_served 0 Fulfilled [dashboard_stop] kill_live_server
              (OnSignal SIGINT)) as (Hi & _).
  - repeat constructor.
  - reflexivity.
  - exact Hi.
Defined.

Lemma run_handlers_at_once (pexit : Z -> Proc -> Proc) :
  forall rest i st,
    Forall (fun h => passes_at_once h = true) rest ->
    exists st',
      run_handlers pexit rest i st = pexit 0 (observe (Console Removed) st') /\
      invocations (trace st') = (invocations (trace st) ++ rest)%list /\
      warnings (trace st') = (warnings (trace st) ++ expected_warnings rest)%list /\
      isCleaning st' = isCleaning st /\ exiting st' = exiting st /\
      exited st' = exited st.
Proof.
  induction rest as [|h rest IH]; intros i st Hall; cbn [run_handlers].
  - exists st. rewrite !app_nil_r. repeat split.
  - apply Forall_cons_iff in Hall. destruct Hall as [Hh Hall].
    unfold passes_at_once, suspends, readable_failure in Hh.
    cbn [expected_warnings]. unfold failure in *.
    destruct (hbody h) as [e|s]; [|discriminate].
    assert (Hm : get_prop e "message" = Normal (message_of e))
      by (destruct e; try reflexivity; discriminate).
    unfold catch_clause. rewrite Hm.
    destruct (IH (S i) (observe (Console (CleanupWarning (message_of e)))
                          (observe (Invoke h) st)) Hall)
      as (st' & Hrun & Hi & Hw & Hc & He & Hx).
    exists st'. rewrite Hrun, Hi, Hw. proc_fields. trace_simpl.
    rewrite <- !app_assoc. repeat split; assumption.
Qed.

(** A pass in which no handler suspends (no handler is registered, or every
    handler throws when called, with a failure whose message can be read) is
    over within the turn that started it: every handler has been invoked
    once, in order, with its warning logged, and the process has left with
    code 0.  This holds also for a pass started from the 'exit' listener,
    where code 0 replaces the code the process was leaving with; and
    whatever is registered or signalled afterwards has no effect. *)
Theorem pass_without_suspension_exits_at_once
  (hs : list Handler) (ev : Event) (later : list Event) :
  Forall (fun h => passes_at_once h = true) hs ->
  (starts_cleanup ev = true \/ exists code, ev = ProcessExit code) ->
  let st := run (map Register hs ++ ev :: later) in
  invocations (trace st) = hs /\
  warnings (trace st) = expected_warnings hs /\
  exited st = Some 0.
Proof.
  intros Hall Hev st. subst st.
  rewrite run_after_registering. cbn [fold_left].
  assert (Hnow : invocations (trace (step (registered hs) ev)) = hs /\
                 warnings (trace (step (registered hs) ev)) = expected_warnings hs /\
                 exited (step (registered hs) ev) = Some 0).
  { assert (Hpass : forall st0,
               cleanupHandlers st0 = hs -> isCleaning st0 = false ->
               exiting st0 = false -> exited st0 = None ->
               invocations (trace st0) = [] -> warnings (trace st0) = [] ->
               invocations (trace (cleanup process_exit st0)) = hs /\
               warnings (trace (cleanup process_exit st0)) = expected_warnings hs /\
               exited (cleanup process_exit st0) = Some 0).
    { intros st0 Hh Hc He Hx Hi Hw. unfold cleanup. rewrite Hc. proc_fields. rewrite Hh.
      destruct (run_handlers_at_once process_exit hs 0
                  (observe (Console CleaningUp) (set_isCleaning st0)) Hall)
        as (st' & Hrun & Hi' & Hw' & Hc' & He' & Hx').
      proc_fields. rewrite Hrun.
      rewrite process_exit_latched by (proc_fields; congruence).
      proc_fields. trace_simpl. rewrite Hi', Hw'. trace_simpl.
      rewrite Hi, Hw. repeat split. }
    destruct Hev as [Hev|[code Hev]].
    - destruct ev; try discriminate; unfold step; cbn [exited registered];
        apply Hpass; reflexivity.
    - subst ev. unfold step. cbn [exited registered].
      unfold process_exit, process_exit_with. cbn [exiting registered].
      unfold exit_listener, cleanup. cbn [isCleaning set_exiting registered].
      destruct (run_handlers_at_once exit_while_exiting hs 0
                  (observe (Console CleaningUp)
                     (set_isCleaning (set_exiting (registered hs)))) Hall)
        as (st' & Hrun & Hi' & Hw' & Hc' & He' & Hx').
      proc_fields. cbn [registered] in *.
      change (cleanupHandlers (registered hs)) with hs.
      rewrite Hrun. unfold exit_while_exiting, process_exit_with.
      proc_fields. rewrite He'. proc_fields. trace_simpl.
      rewrite Hi', Hw'. repeat split. }
  destruct Hnow as (Hi & Hw & Hx).
  rewrite (exited_is_final later _ 0 Hx). auto.
Qed.

Lemma pass_without_suspension_exits_at_once_witness :
  exited (run (map Register [throws 0 (ErrorObj "boom")]
               ++ ProcessExit 1 :: [Register proxy_stop; Settle]))
  = Some 0 /\
  warnings (trace (run (map Register [throws 0 (ErrorObj "boom")]
                        ++ ProcessExit 1 :: [Register proxy_stop; Settle])))
  = [JStr "boom"].
Proof.
  destruct (pass_without_suspension_exits_at_once
              [throws 0 (ErrorObj "boom")] (ProcessExit 1) [Register proxy_stop; Settle])
    as (_ & Hw & Hx).
  - repeat constructor.
  - right. exists 1. reflexivity.
  - split; [exact Hx|exact Hw].
Defined.

(* ================================================================== *)
(** * Properties of the live-server listener *)
(* ================================================================== *)

Lemma prefix_app (p s : string) :
  String.prefix p s = true <-> exists post, s = p ++ post.
Proof.
  revert s. induction p as [|c p IH]; intro s.
  - destruct s; simpl; (split; [intros _; eexists; reflexivity|reflexivity]).
  - destruct s as [|d s]; simpl;
      [split; [discriminate|intros [post H]; discriminate]|].
    destruct (ascii_dec c d) as [->|Hne].
    + rewrite IH. split; intros [post H]; exists post; [rewrite H; reflexivity|].
      injection H as H. exact H.
    + split; [discriminate|]. intros [post H]. injection H as H1 H2. congruence.
Qed.

Lemma includes_app (needle hay : string) :
  includes needle hay = true <-> exists pre post, hay = pre ++ needle ++ post.
Proof.
  induction hay as [|c hay IH]; cbn [includes].
  - rewrite orb_false_r, prefix_app. split.
    + intros [post H]. exists "", post. exact H.
    + intros (pre & post & H). destruct pre as [|d pre]; [eauto|discriminate].
  - rewrite orb_true_iff, prefix_app, IH. split.
    + intros [[post H]|(pre & post & H)].
      * exists "", post. exact H.
      * exists (String c pre), post. simpl. rewrite H. reflexivity.
    + intros (pre & post & H). destruct pre as [|d pre].
      * left. exists post. exact H.
      * right. simpl in H. injection H as _ H. eauto.
Qed.

Lemma nonspace_run_empty (s : string) :
  nonspace_run s = "" <-> stops_here s = true.
Proof.
  destruct s as [|c s]; simpl; [tauto|].
  destruct (is_space c); split; congruence.
Qed.

Lemma nonspace_run_split (s : string) :
  exists post,
    s = nonspace_run s ++ post /\
    space_free (nonspace_run s) = true /\
    stops_here post = true.
Proof.
  induction s as [|c s (post & Hs & Hf & Hp)]; simpl.
  - exists "". repeat split.
  - destruct (is_space c) eqn:Hc.
    + exists (String c s). simpl. rewrite Hc. repeat split.
    + exists post. simpl. rewrite Hc, Hf, <- Hs. repeat split. exact Hp.
Qed.

Lemma http_prefix_inj (a b : string) : "http://" ++ a = "http://" ++ b -> a = b.
Proof. simpl. intro H. injection H as H. exact H. Qed.

Lemma match_url_none_iff (data : string) :
  match_url data = None <->
  forall pre post, data = pre ++ "http://" ++ post -> stops_here post = true.
Proof.
  induction data as [|c data IH].
  - simpl. split; [|reflexivity].
    intros _ pre post H. destruct pre; discriminate.
  - cbn [match_url].
    destruct (String.prefix "http://" (String c data)) eqn:Hp.
    + apply prefix_app in Hp. destruct Hp as [post0 Hp].
      rewrite Hp. change (drop 7 ("http://" ++ post0)) with post0.
      rewrite <- Hp.
      destruct (nonspace_run post0) as [|r run] eqn:Hrun.
      * rewrite IH. apply nonspace_run_empty in Hrun. split.
        -- intros H pre post Hd. destruct pre as [|d pre].
           ++ rewrite Hp in Hd. apply http_prefix_inj in Hd. subst post. exact Hrun.
           ++ simpl in Hd. injection Hd as _ Hd. eauto.
        -- intros H pre post Hd. apply (H (String c pre) post).
           simpl. rewrite Hd. reflexivity.
      * split; [discriminate|].
        intro H. specialize (H "" post0 Hp).
        apply nonspace_run_empty in H. congruence.
    + rewrite IH. split.
      * intros H pre post Hd. destruct pre as [|d pre].
        -- assert (String.prefix "http://" (String c data) = true)
             by (apply prefix_app; eauto).
           congruence.
        -- simpl in Hd. injection Hd as _ Hd. eauto.
      * intros H pre post Hd. apply (H (String c pre) post).
        simpl. rewrite Hd. reflexivity.
Qed.

Lemma match_url_some (data : string) :
  forall url,
    match_url data = Some url ->
    exists pre run post,
      data = pre ++ url ++ post /\
      url = "http://" ++ run /\
      run <> "" /\
      space_free run = true /\
      stops_here post = true /\
      forall pre' post',
        data = pre' ++ "http://" ++ post' ->
        (String.length pre' < String.length pre)%nat ->
        stops_here post' = true.
Proof.
  induction data as [|c data IH]; intros url Hm; [discriminate|].
  cbn [match_url] in Hm.
  assert (Hrec : match_url data = Some url ->
                 (forall post', String c data = "http://" ++ post' ->
                                stops_here post' = true) ->
                 exists pre run post,
                   String c data = pre ++ url ++ post /\
                   url = "http://" ++ run /\ run <> "" /\
                   space_free run = true /\ stops_here post = true /\
                   forall pre' post',
                     String c data = pre' ++ "http://" ++ post' ->
                     (String.length pre' < String.length pre)%nat ->
                     stops_here post' = true).
  { intros Hm' Hhead.
    destruct (IH url Hm') as (pre & run & post & Hd & Hu & Hne & Hf & Hs & Hleft).
    exists (String c pre), run, post. simpl. rewrite <- Hd.
    repeat split; try assumption.
    intros pre' post' Hd' Hlt. destruct pre' as [|d pre'].
    - apply Hhead. exact Hd'.
    - simpl in Hd'. injection Hd' as _ Hd'. apply (Hleft pre' post' Hd').
      simpl in Hlt. lia. }
  destruct (String.prefix "http://" (String c data)) eqn:Hp.
  - apply prefix_app in Hp. destruct Hp as [post0 Hp].
    rewrite Hp in Hm. change (drop 7 ("http://" ++ post0)) with post0 in Hm.
    destruct (nonspace_run post0) as [|r run] eqn:Hrun.
    + apply Hrec; [exact Hm|].
      intros post' Hd'. rewrite Hp in Hd'. apply http_prefix_inj in Hd'. subst post'.
      apply nonspace_run_empty. exact Hrun.
    + injection Hm as <-.
      destruct (nonspace_run_split post0) as (post & Hs & Hf & Hstop).
      rewrite Hrun in Hs, Hf.
      exists "", (String r run), post.
      repeat split; try assumption; try discriminate.
      * rewrite Hp, Hs. reflexivity.
      * intros pre' post' _ Hlt. simpl in Hlt. lia.
  - apply Hrec; [exact Hm|].
    intros post' Hd'.
    assert (String.prefix "http://" (String c data) = true)
      by (apply prefix_app; eauto).
    congruence.
Qed.

(** When the stdout listener resolves the promise, the URL it hands over is
    a piece of the chunk: `http://` followed by a non-empty run of non-space
    code units, which ends where the chunk ends or a space follows; and it
    is the leftmost such piece, every earlier `http://` in the chunk being
    followed at once by a space or by the end of the chunk. *)
Theorem live_server_url_is_leftmost_url (data url : string) :
  on_stdout_data data = Normal (Some url) ->
  exists pre run post,
    data = pre ++ url ++ post /\
    url = "http://" ++ run /\
    run <> "" /\
    space_free run = true /\
    stops_here post = true /\
    forall pre' post',
      data = pre' ++ "http://" ++ post' ->
      (String.length pre' < String.length pre)%nat ->
      stops_here post' = true.
Proof.
  unfold on_stdout_data. intro H.
  destruct (includes "http://" data); [|discriminate].
  destruct (match_url data) as [u|] eqn:Hm; [|discriminate].
  injection H as <-. apply match_url_some, Hm.
Qed.

Lemma live_server_url_is_leftmost_url_witness :
  exists pre run post,
    "Serving http:// at http://127.0.0.1:5500 now"
    = pre ++ "http://127.0.0.1:5500" ++ post /\
    "http://127.0.0.1:5500" = "http://" ++ run /\
    stops_here post = true.
Proof.
  destruct (live_server_url_is_leftmost_url
              "Serving http:// at http://127.0.0.1:5500 now"
              "http://127.0.0.1:5500" eq_refl)
    as (pre & run & post & Hd & Hu & _ & _ & Hs & _).
  exists pre, run, post. repeat split; assumption.
Defined.

(** What the stdout listener does with a chunk, by what the chunk holds.
    It does nothing exactly when the chunk does not contain `http://`; it
    resolves the promise exactly when some `http://` in the chunk is followed
    by a non-space code unit; it throws exactly when the chunk contains
    `http://` and every occurrence is followed at once by a space or by the
    end of the chunk. *)
Theorem live_server_listener_outcomes (data : string) :
  (on_stdout_data data = Normal None <->
   forall pre post, data <> pre ++ "http://" ++ post) /\
  ((exists url, on_stdout_data data = Normal (Some url)) <->
   exists pre post, data = pre ++ "http://" ++ post /\ stops_here post = false) /\
  ((exists e, on_stdout_data data = Throw e) <->
   (exists pre post, data = pre ++ "http://" ++ post) /\
   forall pre post, data = pre ++ "http://" ++ post -> stops_here post = true).
Proof.
  pose proof (includes_app "http://" data) as Hinc.
  pose proof (match_url_none_iff data) as Hnone.
  pose proof (match_url_some data) as Hsome.
  unfold on_stdout_data.
  destruct (includes "http://" data) eqn:Hi.
  - destruct Hinc as [Hinc _]. specialize (Hinc eq_refl).
    destruct Hinc as (pre0 & post0 & Hd0).
    destruct (match_url data) as [url|] eqn:Hm.
    + destruct (Hsome url eq_refl)
        as (pre & run & post & Hd & Hu & Hne & Hf & Hs & _).
      assert (Hocc : exists pre post,
                 data = pre ++ "http://" ++ post /\ stops_here post = false).
      { exists pre, (run ++ post). split.
        - rewrite Hd, Hu. reflexivity.
        - destruct run as [|c run]; [congruence|].
          simpl in Hf |- *. destruct (is_space c); [discriminate|reflexivity]. }
      split; [|split].
      * split; [discriminate|]. intro H. exfalso. apply (H pre0 post0 Hd0).
      * split; [intros _; exact Hocc|eauto].
      * split; [intros [e H]; discriminate|].
        intros [_ H]. destruct Hocc as (p & q & Hd' & Hq).
        rewrite (H p q Hd') in Hq. discriminate.
    + destruct Hnone as [Hnone _]. specialize (Hnone eq_refl).
      split; [|split].
      * split; [discriminate|]. intro H. exfalso. apply (H pre0 post0 Hd0).
      * split; [intros [url H]; discriminate|].
        intros (p & q & Hd' & Hq). rewrite (Hnone p q Hd') in Hq. discriminate.
      * split; [intros _; split; [eauto|exact Hnone]|eauto].
  - assert (Hno : forall pre post, data <> pre ++ "http://" ++ post).
    { intros pre post Hd. destruct Hinc as [_ Hinc].
      assert (false = true) by (apply Hinc; eauto). discriminate. }
    split; [|split].
    + split; [intros _; exact Hno|reflexivity].
    + split; [intros [url H]; discriminate|].
      intros (p & q & Hd' & _). exfalso. apply (Hno p q Hd').
    + split; [intros [e H]; discriminate|].
      intros [(p & q & Hd') _]. exfalso. apply (Hno p q Hd').
Qed.

Lemma on_stdout_data_throws (data : string) :
  (exists pre post, data = pre ++ "http://" ++ post) ->
  (forall pre post, data = pre ++ "http://" ++ post -> stops_here post = true) ->
  exists e, on_stdout_data data = Throw e.
Proof.
  intros Hocc Hstop. unfold on_stdout_data.
  rewrite (proj2 (includes_app "http://" data) Hocc).
  rewrite (proj2 (match_url_none_iff data) Hstop). eauto.
Qed.

Lemma cleanup_pass_from_registered (hs : list Handler) :
  Forall (fun h => readable_failure h = true) hs ->
  let st := fold_left step (repeat Settle (settles_needed hs))
              (cleanup process_exit (registered hs)) in
  invocations (trace st) = hs /\
  warnings (trace st) = expected_warnings hs /\
  exited st = Some 0.
Proof.
  intros Hall. cbn zeta. unfold cleanup. cbn [isCleaning registered].
  pose proof (pass_completes hs 0
                (observe (Console CleaningUp) (set_isCleaning (registered hs)))
                Hall eq_refl eq_refl eq_refl eq_refl) as P.
  exact P.
Qed.

(** A chunk of live-server output that mentions `http://` but never with
    anything other than a space or its own end behind it makes the listener
    throw; the exception is caught by nobody, so the manager's
    'uncaughtException' listener starts the cleanup: with handlers that
    settle and fail readably, all of them run and the process leaves with
    code 0.  Any other chunk raises nothing. *)
Theorem dangling_url_chunk_shuts_router_down (data : string) (hs : list Handler) :
  (exists pre post, data = pre ++ "http://" ++ post) ->
  (forall pre post, data = pre ++ "http://" ++ post -> stops_here post = true) ->
  Forall (fun h => readable_failure h = true) hs ->
  let st := run (map Register hs ++ stdout_events data
                 ++ repeat Settle (settles_needed hs)) in
  stdout_events data = [OnUncaughtException] /\
  invocations (trace st) = hs /\
  exited st = Some 0.
Proof.
  intros Hocc Hstop Hall st. subst st.
  destruct (on_stdout_data_throws data Hocc Hstop) as [e He].
  assert (Hev : stdout_events data = [OnUncaughtException])
    by (unfold stdout_events; rewrite He; reflexivity).
  rewrite Hev, run_after_registering. cbn [app fold_left].
  change (step (registered hs) OnUncaughtException)
    with (cleanup process_exit (registered hs)).
  destruct (cleanup_pass_from_registered hs Hall) as (Hi & _ & Hx).
  auto.
Qed.

Lemma dangling_url_chunk_shuts_router_down_witness :
  stdout_events "Serving at http://" = [OnUncaughtException] /\
  exited (run (main_handlers ++ stdout_events "Serving at http://" ++ repeat Settle 3))
  = Some 0.
Proof.
  destruct (dangling_url_chunk_shuts_router_down "Serving at http://"
              [proxy_stop; dashboard_stop; kill_live_server])
    as (Hev & _ & Hx).
  - exists "Serving at ", "". reflexivity.
  - apply match_url_none_iff. reflexivity.
  - repeat constructor.
  - split; [exact Hev|exact Hx].
Defined.
